(** * BXEngine: the script manager (lib/scriptmanager.py)

    A shallow embedding of [ScriptManager]: the script cache
    [__modules], the loader [__load], the lookup [_module], the
    container protocol ([__contains__], [__getitem__]) and the
    fault-isolating dispatcher [call].

    Python exceptions are modelled by an outcome type ([Ret] / [Raise])
    threaded through a state monad whose state survives a raise, as a
    Python object's fields do.  [sys.exit(n)] raises [SystemExit n]; when
    nothing catches it the interpreter ends the process with status [n]. *)

From Stdlib Require Import ZArith Lia Ascii String.
From stdpp Require Import base option list gmap strings.

Open Scope string_scope.

(** ** Python values, exceptions and outcomes *)

(** The exception classes the manager tells apart, and a catch-all. *)
Inductive exn : Type :=
| AttributeError
| TypeError
| IndexError
| SystemExit (status : Z)
| Fault (name : string).

Inductive outcome (A : Type) : Type :=
| Ret (a : A)
| Raise (e : exn).
Arguments Ret {A} a.
Arguments Raise {A} e.

(** First-order data passed to and returned by script functions.
    [VContext path] is the opaque [APIContext] built for [path]. *)
Inductive value : Type :=
| VNone
| VBool (b : bool)
| VInt (z : Z)
| VStr (s : string)
| VContext (path : string).

(** What [getattr] can find on an object: a callable, described by what a
    call with given arguments does, or a plain datum. *)
Inductive attr : Type :=
| Func (body : list value -> outcome value)
| Data (v : value).

(** A module object.  [mod_id] is the object's identity (allocation
    number); [mod_attrs] is everything [getattr] answers on it. *)
Record pymodule : Type := PyModule {
  mod_id : nat;
  mod_name : string;
  mod_attrs : gmap string attr
}.

(** What [_module] and [__load] hand back: a module, [False] or [None]. *)
Inductive lookup : Type :=
| Mod (m : pymodule)
| PFalse
| PNone.

(** ** The world outside the manager *)

(** What building and executing the file at a concrete location does
    (spec_from_file_location, module_from_spec, exec_module): it yields
    the attributes of the executed module, or raises.  A location absent
    from the map does not exist. *)
Definition script : Type := outcome (gmap string attr).
Abbreviation filesystem := (gmap string script).

Inductive level : Type := Info | Error | Critical.

(** One logger call: the formatted text before any traceback, and the
    exception whose traceback is appended, if any. *)
Record log_entry : Type := LogEntry {
  entry_level : level;
  entry_text : string;
  entry_trace : option exn
}.

(** File-system traffic: [os.path.exists] probes, and executions of a
    script's top-level code (tagged with the cache key being loaded). *)
Inductive io_event : Type :=
| Probe (fullpath : string)
| Exec (key fullpath : string).

(** ** Manager state and the state-and-exception monad *)

Record manager : Type := Manager {
  modules : gmap string pymodule;
  log : list log_entry;
  io : list io_event;
  next_id : nat
}.

Definition empty_manager : manager :=
  {| modules := ∅; log := []; io := []; next_id := 0 |}.

Definition M (A : Type) : Type := manager -> outcome A * manager.

Definition ret {A} (a : A) : M A := fun st => (Ret a, st).
Definition raise {A} (e : exn) : M A := fun st => (Raise e, st).
Definition bind {A B} (m : M A) (k : A -> M B) : M B :=
  fun st => match m st with
            | (Ret a, st') => k a st'
            | (Raise e, st') => (Raise e, st')
            end.
(** [try: m except e: h e] *)
Definition try_except {A} (m : M A) (h : exn -> M A) : M A :=
  fun st => match m st with
            | (Ret a, st') => (Ret a, st')
            | (Raise e, st') => h e st'
            end.
Definition lift {A} (o : outcome A) : M A := fun st => (o, st).

#[global] Instance M_ret : MRet M := @ret.
#[global] Instance M_bind : MBind M := fun A B k m => bind m k.

Definition sys_exit {A} (status : Z) : M A := raise (SystemExit status).

(** State updates: one more log line, one more I/O event, a freshly
    allocated object, a write to the cache. *)
Definition add_log (e : log_entry) (st : manager) : manager :=
  {| modules := modules st; log := log st ++ [e]; io := io st;
     next_id := next_id st |}.

Definition add_io (ev : io_event) (st : manager) : manager :=
  {| modules := modules st; log := log st; io := io st ++ [ev];
     next_id := next_id st |}.

Definition alloc (st : manager) : manager :=
  {| modules := modules st; log := log st; io := io st;
     next_id := S (next_id st) |}.

Definition set_module (k : string) (m : pymodule) (st : manager) : manager :=
  {| modules := <[k := m]> (modules st); log := log st; io := io st;
     next_id := next_id st |}.

Definition write_log (lv : level) (text : string) (tr : option exn) : M unit :=
  fun st => (Ret tt, add_log (LogEntry lv text tr) st).

Definition record_io (ev : io_event) : M unit :=
  fun st => (Ret tt, add_io ev st).

(** ** String helpers (str.startswith, str.split, os.path) *)

Fixpoint startswith (p s : string) : bool :=
  match p, s with
  | EmptyString, _ => true
  | String a p', String b s' => if Ascii.eqb a b then startswith p' s' else false
  | String _ _, EmptyString => false
  end.

(** [s.split(sep, 1)]: at most one cut, at the first separator. *)
Fixpoint split_once (sep : ascii) (s : string) : list string :=
  match s with
  | EmptyString => [EmptyString]
  | String c r =>
      if Ascii.eqb c sep then [EmptyString; r]
      else match split_once sep r with
           | h :: t => String c h :: t
           | [] => []
           end
  end.

(** [l[i]] on a Python list. *)
Definition index {A} (l : list A) (i : nat) : outcome A :=
  match l !! i with
  | Some x => Ret x
  | None => Raise IndexError
  end.

Fixpoint contains_char (c : ascii) (s : string) : bool :=
  match s with
  | EmptyString => false
  | String a r => if Ascii.eqb a c then true else contains_char c r
  end.

(** [os.path.split(p)[-1]]: what follows the last slash. *)
Fixpoint path_tail (s : string) : string :=
  match s with
  | EmptyString => EmptyString
  | String c r =>
      if contains_char "/" r then path_tail r
      else if Ascii.eqb c "/" then r else String c r
  end.

Fixpoint rfind (c : ascii) (s : string) : option nat :=
  match s with
  | EmptyString => None
  | String a r =>
      match rfind c r with
      | Some i => Some (S i)
      | None => if Ascii.eqb a c then Some 0 else None
      end
  end.

Fixpoint all_dots (s : string) : bool :=
  match s with
  | EmptyString => true
  | String a r => if Ascii.eqb a "." then all_dots r else false
  end.

(** [os.path.splitext(p)[0]] for a [p] without directory part: the text
    before the last dot, unless only dots precede it. *)
Definition splitext_root (p : string) : string :=
  match rfind "." p with
  | Some i => let root := substring 0 i p in
              if all_dots root then p else root
  | None => p
  end.

(** ** The script manager *)

Module ScriptManager.
Section Manager.

(** [lib.util.normalize_path], the active world's directory
    ([self.world.dir]), the [APIContext(filename, self.app)]
    constructor, and what [getattr(None, name)] finds. *)
Variable normalize_path : string -> string.
Variable world_dir : string.
Variable APIContext : string -> outcome value.
Variable NoneType_attrs : gmap string attr.

Definition COMMON : string := "$COMMON$/".

(** Lines 149-152: the concrete location of a normalized filename. *)
Definition fullpath_of (filename : string) : outcome string :=
  if startswith COMMON filename then
    match index (split_once "/" filename) 1 with
    | Ret rest => Ret ("common" +:+ "/" +:+ rest)
    | Raise e => Raise e
    end
  else Ret (world_dir +:+ "/" +:+ filename).

(** [os.path.exists(fullpath)] *)
Definition path_exists (fs : filesystem) (fullpath : string) : M bool :=
  record_io (Probe fullpath);;
  ret (bool_decide (is_Some (fs !! fullpath))).

(** Lines 161-163: build the module and run its top-level code. *)
Definition exec_module (fs : filesystem) (key mname fullpath : string)
  : M pymodule :=
  fun st =>
    let st' := alloc (add_io (Exec key fullpath) st) in
    match fs !! fullpath with
    | Some (Ret attrs) =>
        (Ret {| mod_id := next_id st; mod_name := mname;
                mod_attrs := attrs |}, st')
    | Some (Raise e) => (Raise e, st')
    | None => (Raise (Fault "FileNotFoundError"), st')
    end.

(** [self.__modules[filename] = mod] *)
Definition store_module (filename : string) (m : pymodule) : M unit :=
  fun st => (Ret tt, set_module filename m st).

(** [self.__modules[filename]] *)
Definition fetch_module (filename : string) : M pymodule :=
  fun st => match modules st !! filename with
            | Some m => (Ret m, st)
            | None => (Raise (Fault "KeyError"), st)
            end.

(** [obj.name = v] on a module object. *)
Definition setattr (name : string) (v : value) (m : pymodule) : pymodule :=
  {| mod_id := mod_id m; mod_name := mod_name m;
     mod_attrs := <[name := Data v]> (mod_attrs m) |}.

Definition __load (fs : filesystem) (filename : string) : M lookup :=
  let filename := normalize_path filename in
  fullpath ← lift (fullpath_of filename);
  found ← path_exists fs fullpath;
  if negb found then
    write_log Error ("__load(): No such script: " +:+ fullpath) None;;
    mret PFalse
  else
    let mname := splitext_root (path_tail filename) in
    try_except
      (mod_ ← exec_module fs filename mname fullpath;
       store_module filename mod_;;
       ctx ← lift (APIContext filename);
       cached ← fetch_module filename;
       store_module filename (setattr "BXE" ctx cached);;
       write_log Info ("__load(): Loaded script: " +:+ filename) None;;
       cached' ← fetch_module filename;
       mret (Mod cached'))
      (fun e =>
         match e with
         | SystemExit _ =>
             write_log Critical
               ("__load(): Script called sys.exit(): " +:+ filename)
               (Some e);;
             sys_exit 11
         | _ =>
             write_log Error ("__load(): Error from script: " +:+ filename)
               (Some e);;
             mret PNone
         end).

Definition _module (fs : filesystem) (filename : string) : M lookup :=
  let filename := normalize_path filename in
  fun st =>
    match modules st !! filename with
    | None => __load fs filename st
    | Some m => (Ret (Mod m), st)
    end.

Definition __contains__ (fs : filesystem) (item : string) : M bool :=
  r ← _module fs item;
  mret (match r with PNone => false | _ => true end).

(** Returns the module, or Python's [None] (here [@None pymodule]). *)
Definition __getitem__ (fs : filesystem) (item : string)
  : M (option pymodule) :=
  r ← _module fs item;
  match r with
  | Mod m => mret (Some m)
  | PFalse =>
      write_log Error ("__getitem__(): No such module: " +:+ item) None;;
      mret None
  | PNone =>
      write_log Error ("__getitem__(): Error from module: " +:+ item) None;;
      mret None
  end.

(** [getattr(obj, name)] where [obj] is a module or [None]. *)
Definition getattr (obj : option pymodule) (name : string) : outcome attr :=
  let attrs := match obj with
               | Some m => mod_attrs m
               | None => NoneType_attrs
               end in
  match attrs !! name with
  | Some a => Ret a
  | None => Raise AttributeError
  end.

(** Calling [f] on [args]: calling what is not callable raises [TypeError]. *)
Definition invoke (f : attr) (args : list value) : outcome value :=
  match f with
  | Func body => body args
  | Data _ => Raise TypeError
  end.

(** The guarded expression of [call], line 106. *)
Definition call_body (fs : filesystem) (filename func : string)
    (args : list value) : M value :=
  obj ← __getitem__ fs filename;
  f ← lift (getattr obj func);
  lift (invoke f args).

(** What [getattr(obj, func)] called on [args] comes to. *)
Definition getattr_call (obj : option pymodule) (func : string)
    (args : list value) : outcome value :=
  match getattr obj func with
  | Ret f => invoke f args
  | Raise e => Raise e
  end.

(** The three handlers of [call], lines 107-117. *)
Definition call_handler (filename func : string) (e : exn) : M value :=
  match e with
  | AttributeError =>
      write_log Error
        ("call(): Module not loaded for call: " +:+ filename +:+ ": "
           +:+ func +:+ "()") None;;
      mret VNone
  | SystemExit _ =>
      write_log Critical
        ("call(): Script called sys.exit(): " +:+ filename) (Some e);;
      sys_exit 11
  | _ =>
      write_log Error
        ("call(): Error from function: " +:+ filename +:+ ": "
           +:+ func +:+ "()") (Some e);;
      mret VNone
  end.

Definition call (fs : filesystem) (filename func : string)
    (args : list value) : M value :=
  let filename := normalize_path filename in
  try_except (call_body fs filename func args) (call_handler filename func).

(** The public operations, and a run of the engine as a sequence of
    them, each against the file system of its moment. *)
Inductive op : Type :=
| OpModule (p : string)
| OpGetitem (p : string)
| OpContains (p : string)
| OpCall (p func : string) (args : list value).

Definition run_op (fs : filesystem) (o : op) (st : manager) : manager :=
  match o with
  | OpModule p => snd (_module fs p st)
  | OpGetitem p => snd (__getitem__ fs p st)
  | OpContains p => snd (__contains__ fs p st)
  | OpCall p f args => snd (call fs p f args st)
  end.

Definition run_ops (ops : list (filesystem * op)) (st : manager) : manager :=
  fold_left (fun s fo => run_op (fst fo) (snd fo) s) ops st.

End Manager.

Definition is_exit (e : exn) : bool :=
  match e with SystemExit _ => true | _ => false end.

(** The state once [__load] has probed [fullpath] and run the script
    there for cache key [key]. *)
Definition executed (key fullpath : string) (st : manager) : manager :=
  alloc (add_io (Exec key fullpath) (add_io (Probe fullpath) st)).

(** The module object that execution allocates in state [st]. *)
Definition fresh_module (key : string) (attrs : gmap string attr)
    (st : manager) : pymodule :=
  {| mod_id := next_id st; mod_name := splitext_root (path_tail key);
     mod_attrs := attrs |}.

Definition no_such_script (fullpath : string) : log_entry :=
  LogEntry Error ("__load(): No such script: " +:+ fullpath) None.
Definition loaded_script (key : string) : log_entry :=
  LogEntry Info ("__load(): Loaded script: " +:+ key) None.
Definition load_exit_entry (key : string) (e : exn) : log_entry :=
  LogEntry Critical ("__load(): Script called sys.exit(): " +:+ key) (Some e).
Definition load_error_entry (key : string) (e : exn) : log_entry :=
  LogEntry Error ("__load(): Error from script: " +:+ key) (Some e).
Definition not_loaded_entry (key func : string) : log_entry :=
  LogEntry Error ("call(): Module not loaded for call: " +:+ key +:+ ": "
                    +:+ func +:+ "()") None.
Definition call_exit_entry (key : string) (e : exn) : log_entry :=
  LogEntry Critical ("call(): Script called sys.exit(): " +:+ key) (Some e).
Definition call_error_entry (key func : string) (e : exn) : log_entry :=
  LogEntry Error ("call(): Error from function: " +:+ key +:+ ": "
                    +:+ func +:+ "()") (Some e).

(** How often the top-level code of the script cached under [key] ran. *)
Definition is_exec_of (key : string) (ev : io_event) : bool :=
  match ev with
  | Exec k _ => bool_decide (k = key)
  | Probe _ => false
  end.

Definition executions (key : string) (evs : list io_event) : nat :=
  length (List.filter (is_exec_of key) evs).

(** An outcome that unwinds, if at all, only as the process exit. *)
Definition only_exit {A} (o : outcome A) : Prop :=
  match o with
  | Ret _ => True
  | Raise e => e = SystemExit 11
  end.

(** What a later state keeps of an earlier one: every cached module,
    unchanged, and the number of times its script ran. *)
Definition keeps (st st' : manager) : Prop :=
  forall k m, modules st !! k = Some m ->
    modules st' !! k = Some m /\
    executions k (io st') = executions k (io st).

(** The two error lines of [__getitem__]; they show the item as given. *)
Definition no_such_module (item : string) : log_entry :=
  LogEntry Error ("__getitem__(): No such module: " +:+ item) None.
Definition error_from_module (item : string) : log_entry :=
  LogEntry Error ("__getitem__(): Error from module: " +:+ item) None.

(** Every cached unit carries the name derived from its own key. *)
Definition named_after_key (st : manager) : Prop :=
  forall k m, modules st !! k = Some m ->
    mod_name m = splitext_root (path_tail k).

End ScriptManager.

(** * A concrete engine to run the manager on *)

Module Demo.
Import ScriptManager.

(** A normalizer in the spirit of [normalize_path]: backslashes become
    slashes. *)
Fixpoint slashes (s : string) : string :=
  match s with
  | EmptyString => EmptyString
  | String c r => String (if Ascii.eqb c "\" then "/"%char else c) (slashes r)
  end.

Definition new_context (path : string) : outcome value := Ret (VContext path).

Definition greet : attr := Func (fun _ => Ret (VStr "hi")).
Definition boom : attr := Func (fun _ => Raise (Fault "ValueError")).
Definition lost : attr := Func (fun _ => Raise AttributeError).
Definition quit : attr := Func (fun _ => Raise (SystemExit 0)).

Definition hello_attrs : gmap string attr :=
  {[ "greet" := greet; "boom" := boom; "lost" := lost; "quit" := quit;
     "speed" := Data (VInt 5) ]}.

Definition disk : filesystem :=
  {[ "world/hello.py" := Ret hello_attrs;
     "common/hello.py" := Ret hello_attrs;
     "world/broken.py" := Raise (Fault "SyntaxError");
     "world/halt.py" := Raise (SystemExit 0) ]}.

(** A context constructor that fails, as any constructor can. *)
Definition no_context (path : string) : outcome value :=
  Raise (Fault "RuntimeError").

(** The unit of "hello.py" and the manager right after its first load. *)
Definition hello_unit : pymodule :=
  setattr "BXE" (VContext "hello.py")
    (fresh_module "hello.py" hello_attrs empty_manager).

Definition hello_loaded : manager :=
  snd (_module slashes "world" new_context disk "hello.py" empty_manager).

(** The disk after "broken.py" has been repaired. *)
Definition repaired_disk : filesystem :=
  <[ "world/broken.py" := Ret hello_attrs ]> disk.

Definition busy_day : list (filesystem * op) :=
  [ (disk, OpCall "hello.py" "boom" []);
    (disk, OpContains "nope.py");
    (disk, OpGetitem "broken.py");
    (disk, OpModule "$COMMON$/hello.py");
    (disk, OpCall "hello.py" "greet" []) ].

End Demo.


(** * The overlay manager (lib/overlaymanager.py)

    [self.overlays] maps an overlay ID, the [id()] of the image it was
    inserted with, to the overlay's fields.  Surfaces and scales are
    opaque: the manager only hands them to its collaborators
    ([ResourceManager.load_image], [pygame.transform.scale], [id]).  The
    manager has no exception handler of its own; the collaborators are
    taken to return.  Log lines are recorded by kind, renders
    ([self.app._render()]) are counted. *)

Module OverlayManager.
Section Overlays.

Variable surface : Type.
Variable scale_t : Type.
(** Python's [id()] on a surface. *)
Variable py_id : surface -> Z.
(** [self.resource.load_image(path, scale)]; [None] when it fails. *)
Variable load_image : string -> option scale_t -> option surface.
(** [pygame.transform.scale(surface, scale)] *)
Variable transform_scale : surface -> scale_t -> surface.
Variable world_dir : string.

Record overlay : Type := Overlay {
  filename : option string;
  image : surface;
  position : Z * Z;
  persistent : bool
}.

(** The [imagefile] argument: a [str], a [pygame.Surface], or anything
    else. *)
Inductive image_arg : Type :=
| FromFile (name : string)
| Loaded (s : surface)
| Other.

(** The logger calls of the class, one constructor per call site, with
    the values its format string shows. *)
Inductive message : Type :=
| InvalidImage
| UnableToLoad
| AddedOverlay (img : surface) (pos : Z * Z)
| NoSuchToRemove
| RemovedOverlay (overlay_id : Z)
| NoSuchToReposition
| RepositionedOverlay (overlay_id : Z) (pos : Z * Z)
| NoSuchToRescale
| RescaledOverlay (overlay_id : Z) (scale : scale_t).

Record state : Type := State {
  overlays : gmap Z overlay;
  messages : list (level * message);
  renders : nat
}.

Definition no_overlays : state :=
  {| overlays := ∅; messages := []; renders := 0 |}.

Definition say (lv : level) (msg : message) (st : state) : state :=
  {| overlays := overlays st; messages := messages st ++ [(lv, msg)];
     renders := renders st |}.

Definition render (st : state) : state :=
  {| overlays := overlays st; messages := messages st;
     renders := S (renders st) |}.

Definition set_overlays (ov : gmap Z overlay) (st : state) : state :=
  {| overlays := ov; messages := messages st; renders := renders st |}.

(** What [insert_overlay] returns: an ID, [False] or [None]. *)
Inductive inserted : Type :=
| NewId (overlay_id : Z)
| InsFalse
| InsNone.

(** Lines 82-97: the image to overlay and the filename to remember, or
    nothing for an argument of a foreign type.  What [load_image] hands
    back may be falsy ([None]); a surface is not. *)
Definition resolve_image (imagefile : image_arg) (scale : option scale_t)
  : option (option surface * option string) :=
  match imagefile with
  | FromFile name =>
      Some (load_image (world_dir +:+ "/" +:+ name) scale, Some name)
  | Loaded s =>
      Some (Some (match scale with
                  | Some sc => transform_scale s sc
                  | None => s
                  end), None)
  | Other => None
  end.

Definition insert_overlay (imagefile : image_arg) (pos : Z * Z)
    (scale : option scale_t) (persist : bool) (st : state)
  : inserted * state :=
  match resolve_image imagefile scale with
  | None => (InsFalse, say Error InvalidImage st)
  | Some (None, _) => (InsNone, say Error UnableToLoad st)
  | Some (Some overlay_image, fname) =>
      let entry := {| filename := fname; image := overlay_image;
                      position := pos; persistent := persist |} in
      (NewId (py_id overlay_image),
       say Info (AddedOverlay overlay_image pos)
         (render
            (set_overlays (<[py_id overlay_image := entry]> (overlays st)) st)))
  end.

Definition remove_overlay (overlay_id : Z) (st : state) : bool * state :=
  match overlays st !! overlay_id with
  | None => (false, say Error NoSuchToRemove st)
  | Some _ =>
      (true,
       say Info (RemovedOverlay overlay_id)
         (render (set_overlays (delete overlay_id (overlays st)) st)))
  end.

Definition reposition_overlay (overlay_id : Z) (pos : Z * Z) (st : state)
  : bool * state :=
  match overlays st !! overlay_id with
  | None => (false, say Error NoSuchToReposition st)
  | Some o =>
      let o' := {| filename := filename o; image := image o;
                   position := pos; persistent := persistent o |} in
      (true,
       say Info (RepositionedOverlay overlay_id pos)
         (render (set_overlays (<[overlay_id := o']> (overlays st)) st)))
  end.

Definition rescale_overlay (overlay_id : Z) (scale : scale_t) (st : state)
  : bool * state :=
  match overlays st !! overlay_id with
  | None => (false, say Error NoSuchToRescale st)
  | Some o =>
      let o' := {| filename := filename o;
                   image := transform_scale (image o) scale;
                   position := position o; persistent := persistent o |} in
      (true,
       say Info (RescaledOverlay overlay_id scale)
         (render (set_overlays (<[overlay_id := o']> (overlays st)) st)))
  end.

(** [not self.overlays[k]["persistent"]], for a key [k] of the dict. *)
Definition is_transient (ov : gmap Z overlay) (k : Z) : bool :=
  match ov !! k with
  | Some o => negb (persistent o)
  | None => false
  end.

(** The first loop of [_cleanup]: the keys to delete. *)
Definition to_remove (ov : gmap Z overlay) : list Z :=
  List.filter (is_transient ov) (map_to_list ov).*1.

(** [del d[k]]: nothing ([KeyError]) when the key is missing. *)
Definition del_key (k : Z) (ov : gmap Z overlay) : option (gmap Z overlay) :=
  match ov !! k with
  | Some _ => Some (delete k ov)
  | None => None
  end.

(** [_cleanup]: nothing if one of its [del]s raises [KeyError]. *)
Definition _cleanup (st : state) : option state :=
  ov ← foldl (fun acc k => acc ≫= del_key k) (Some (overlays st))
         (to_remove (overlays st));
  Some (set_overlays ov st).

End Overlays.

Arguments Overlay {surface} filename image position persistent.
Arguments filename {surface} o.
Arguments image {surface} o.
Arguments position {surface} o.
Arguments persistent {surface} o.
Arguments FromFile {surface} name.
Arguments Loaded {surface} s.
Arguments Other {surface}.
Arguments InvalidImage {surface scale_t}.
Arguments UnableToLoad {surface scale_t}.
Arguments AddedOverlay {surface scale_t} img pos.
Arguments NoSuchToRemove {surface scale_t}.
Arguments RemovedOverlay {surface scale_t} overlay_id.
Arguments NoSuchToReposition {surface scale_t}.
Arguments RepositionedOverlay {surface scale_t} overlay_id pos.
Arguments NoSuchToRescale {surface scale_t}.
Arguments RescaledOverlay {surface scale_t} overlay_id scale.
Arguments State {surface scale_t} overlays messages renders.
Arguments overlays {surface scale_t} s.
Arguments messages {surface scale_t} s.
Arguments renders {surface scale_t} s.
Arguments no_overlays {surface scale_t}.
Arguments say {surface scale_t} lv msg st.
Arguments render {surface scale_t} st.
Arguments set_overlays {surface scale_t} ov st.
Arguments resolve_image {surface scale_t} load_image transform_scale
  world_dir imagefile scale.
Arguments insert_overlay {surface scale_t} py_id load_image transform_scale
  world_dir imagefile pos scale persist st.
Arguments remove_overlay {surface scale_t} overlay_id st.
Arguments reposition_overlay {surface scale_t} overlay_id pos st.
Arguments rescale_overlay {surface scale_t} transform_scale overlay_id scale st.
Arguments is_transient {surface} ov k.
Arguments to_remove {surface} ov.
Arguments del_key {surface} k ov.
Arguments _cleanup {surface scale_t} st.

End OverlayManager.

(** * A concrete overlay manager *)

Module OverlayDemo.
Import OverlayManager.

(** A surface: its identity and its size. *)
Record pic : Type := Pic { pic_id : Z; pic_w : Z; pic_h : Z }.

Definition scaled (s : pic) (size : Z * Z) : pic :=
  {| pic_id := pic_id s + 100; pic_w := fst size; pic_h := snd size |}.

Definition lamp : pic := {| pic_id := 7; pic_w := 16; pic_h := 32 |}.
Definition door : pic := {| pic_id := 8; pic_w := 64; pic_h := 128 |}.

(** One image on disk, "world/lamp.png". *)
Definition images (path : string) (scale : option (Z * Z)) : option pic :=
  if String.eqb path "world/lamp.png" then
    Some (match scale with Some sz => scaled lamp sz | None => lamp end)
  else None.

Definition lamp_overlay : overlay pic :=
  {| filename := Some "lamp.png"; image := lamp;
     position := (1, 2)%Z; persistent := false |}.

Definition lit_room : state pic (Z * Z) :=
  {| overlays :=
       {[ 7%Z := {| filename := Some "lamp.png"; image := lamp;
                    position := (1, 2)%Z; persistent := false |};
          8%Z := {| filename := None; image := door;
                    position := (3, 4)%Z; persistent := true |} ]};
     messages := []; renders := 2 |}.

End OverlayDemo.

(** * Properties of the script manager *)

Module ScriptManagerSpec.
Import ScriptManager.

Ltac run :=
  unfold mbind, mret, M_bind, M_ret, bind, ret, lift, raise, sys_exit,
    try_except, write_log, record_io, store_module, fetch_module in *;
  simpl in *.

(** ** Strings *)

Lemma startswith_app (p s : string) :
  startswith p s = true -> exists r, s = p +:+ r.
Proof.
  revert s; induction p as [|a p IH]; intros s H.
  - exists s; reflexivity.
  - destruct s as [|b s]; [discriminate|]. simpl in H.
    destruct (Ascii.eqb a b) eqn:E; [|discriminate].
    apply Ascii.eqb_eq in E; subst b.
    destruct (IH _ H) as [r ->]. exists r; reflexivity.
Qed.

Lemma startswith_self_app (p r : string) : startswith p (p +:+ r) = true.
Proof.
  induction p as [|a p IH]; simpl; [reflexivity|].
  rewrite Ascii.eqb_refl. exact IH.
Qed.

Lemma strlen_app (a b : string) :
  String.length (a +:+ b) = String.length a + String.length b.
Proof.
  induction a as [|x a IH]; [reflexivity|].
  change (S (String.length (a +:+ b)) = S (String.length a + String.length b)).
  now rewrite IH.
Qed.

Lemma app_inj_tail (a b t : string) : a +:+ t = b +:+ t -> a = b.
Proof.
  intros H.
  assert (L : String.length a = String.length b).
  { apply (f_equal String.length) in H. rewrite !strlen_app in H. lia. }
  revert b H L; induction a as [|x a IH]; intros [|y b] H L;
    try discriminate; [reflexivity|].
  change (String x (a +:+ t) = String y (b +:+ t)) in H.
  injection H as -> H. f_equal. apply IH; [exact H|].
  simpl in L. lia.
Qed.

Lemma executions_probe k l fp :
  executions k (l ++ [Probe fp]) = executions k l.
Proof.
  unfold executions. rewrite List.filter_app, List.length_app. simpl. lia.
Qed.

Lemma executions_exec_ne k k' l fp :
  k' <> k -> executions k (l ++ [Exec k' fp]) = executions k l.
Proof.
  intros H. unfold executions. rewrite List.filter_app, List.length_app. simpl.
  rewrite bool_decide_eq_false_2 by done. simpl. lia.
Qed.

Lemma executions_exec_eq k l fp :
  executions k (l ++ [Exec k fp]) = S (executions k l).
Proof.
  unfold executions. rewrite List.filter_app, List.length_app. simpl.
  rewrite bool_decide_eq_true_2 by done. simpl. lia.
Qed.

Lemma keeps_refl st : keeps st st.
Proof. intros k m H. done. Qed.

Lemma keeps_trans st1 st2 st3 : keeps st1 st2 -> keeps st2 st3 -> keeps st1 st3.
Proof.
  intros H12 H23 k m H. destruct (H12 k m H) as [H2 E2].
  destruct (H23 k m H2) as [H3 E3]. split; [done|congruence].
Qed.

Lemma keeps_add_log st e : keeps st (add_log e st).
Proof. intros k m H. done. Qed.

Section Properties.

Variable normalize_path : string -> string.
Variable world_dir : string.
Variable APIContext : string -> outcome value.
Variable NoneType_attrs : gmap string attr.

Local Abbreviation fullpath_of := (ScriptManager.fullpath_of world_dir).
Local Abbreviation __load := (ScriptManager.__load normalize_path world_dir APIContext).
Local Abbreviation _module := (ScriptManager._module normalize_path world_dir APIContext).
Local Abbreviation __contains__ :=
  (ScriptManager.__contains__ normalize_path world_dir APIContext).
Local Abbreviation __getitem__ :=
  (ScriptManager.__getitem__ normalize_path world_dir APIContext).
Local Abbreviation getattr := (ScriptManager.getattr NoneType_attrs).
Local Abbreviation getattr_call := (ScriptManager.getattr_call NoneType_attrs).
Local Abbreviation call_body :=
  (ScriptManager.call_body normalize_path world_dir APIContext NoneType_attrs).
Local Abbreviation call :=
  (ScriptManager.call normalize_path world_dir APIContext NoneType_attrs).
Local Abbreviation run_op :=
  (ScriptManager.run_op normalize_path world_dir APIContext NoneType_attrs).
Local Abbreviation run_ops :=
  (ScriptManager.run_ops normalize_path world_dir APIContext NoneType_attrs).

(** ** The path resolver *)

Lemma fullpath_of_common (rest : string) :
  fullpath_of (COMMON +:+ rest) = Ret ("common/" +:+ rest).
Proof. reflexivity. Qed.

Lemma fullpath_of_world (filename : string) :
  startswith COMMON filename = false ->
  fullpath_of filename = Ret (world_dir +:+ "/" +:+ filename).
Proof. intros H. unfold ScriptManager.fullpath_of. rewrite H. reflexivity. Qed.

(** The resolver raises on no input. *)
Lemma fullpath_of_total (filename : string) :
  exists fp, fullpath_of filename = Ret fp.
Proof.
  destruct (startswith COMMON filename) eqn:E.
  - apply startswith_app in E as [r ->]. eexists. apply fullpath_of_common.
  - eexists. apply fullpath_of_world, E.
Qed.

(** ** The loader, case by case *)

Lemma load_missing fs p fp st :
  fullpath_of (normalize_path p) = Ret fp ->
  fs !! fp = None ->
  __load fs p st = (Ret PFalse, add_log (no_such_script fp) (add_io (Probe fp) st)).
Proof.
  intros Hfp Hfs. unfold ScriptManager.__load, path_exists. run.
  rewrite Hfp. simpl. rewrite Hfs.
  rewrite bool_decide_eq_false_2 by (intros [x Hx]; discriminate).
  reflexivity.
Qed.

Lemma load_ok fs p fp attrs ctx st :
  let key := normalize_path p in
  fullpath_of key = Ret fp ->
  fs !! fp = Some (Ret attrs) ->
  APIContext key = Ret ctx ->
  let m := setattr "BXE" ctx (fresh_module key attrs st) in
  __load fs p st =
    (Ret (Mod m),
     add_log (loaded_script key)
       (set_module key m
          (set_module key (fresh_module key attrs st) (executed key fp st)))).
Proof.
  intros key Hfp Hfs Hctx m. unfold ScriptManager.__load, path_exists, exec_module.
  run. fold key. rewrite Hfp. simpl. rewrite Hfs.
  rewrite bool_decide_eq_true_2 by eauto. simpl.
  rewrite Hctx. simpl. rewrite !lookup_insert_eq. reflexivity.
Qed.

(** A fault of the script's own top-level code: nothing is cached. *)
Lemma load_fault fs p fp e st :
  let key := normalize_path p in
  fullpath_of key = Ret fp ->
  fs !! fp = Some (Raise e) ->
  is_exit e = false ->
  __load fs p st =
    (Ret PNone, add_log (load_error_entry key e) (executed key fp st)).
Proof.
  intros key Hfp Hfs He. unfold ScriptManager.__load, path_exists, exec_module.
  run. fold key. rewrite Hfp. simpl. rewrite Hfs.
  rewrite bool_decide_eq_true_2 by eauto. simpl.
  destruct e; try discriminate; reflexivity.
Qed.

Lemma load_exit fs p fp c st :
  let key := normalize_path p in
  fullpath_of key = Ret fp ->
  fs !! fp = Some (Raise (SystemExit c)) ->
  __load fs p st =
    (Raise (SystemExit 11),
     add_log (load_exit_entry key (SystemExit c)) (executed key fp st)).
Proof.
  intros key Hfp Hfs. unfold ScriptManager.__load, path_exists, exec_module.
  run. fold key. rewrite Hfp. simpl. rewrite Hfs.
  rewrite bool_decide_eq_true_2 by eauto. reflexivity.
Qed.

(** A fault while the context handle is built: the module was stored on
    the line before and stays in the cache. *)
Lemma load_context_fault fs p fp attrs e st :
  let key := normalize_path p in
  fullpath_of key = Ret fp ->
  fs !! fp = Some (Ret attrs) ->
  APIContext key = Raise e ->
  is_exit e = false ->
  __load fs p st =
    (Ret PNone,
     add_log (load_error_entry key e)
       (set_module key (fresh_module key attrs st) (executed key fp st))).
Proof.
  intros key Hfp Hfs Hctx He.
  unfold ScriptManager.__load, path_exists, exec_module.
  run. fold key. rewrite Hfp. simpl. rewrite Hfs.
  rewrite bool_decide_eq_true_2 by eauto. simpl.
  rewrite Hctx. simpl. destruct e; try discriminate; reflexivity.
Qed.

Lemma load_context_exit fs p fp attrs c st :
  let key := normalize_path p in
  fullpath_of key = Ret fp ->
  fs !! fp = Some (Ret attrs) ->
  APIContext key = Raise (SystemExit c) ->
  __load fs p st =
    (Raise (SystemExit 11),
     add_log (load_exit_entry key (SystemExit c))
       (set_module key (fresh_module key attrs st) (executed key fp st))).
Proof.
  intros key Hfp Hfs Hctx.
  unfold ScriptManager.__load, path_exists, exec_module.
  run. fold key. rewrite Hfp. simpl. rewrite Hfs.
  rewrite bool_decide_eq_true_2 by eauto. simpl.
  rewrite Hctx. reflexivity.
Qed.

(** Every run of the loader is one of those six. *)
Lemma load_cases fs p st :
  let key := normalize_path p in
  exists fp, fullpath_of key = Ret fp /\
    ((fs !! fp = None /\
      __load fs p st =
        (Ret PFalse, add_log (no_such_script fp) (add_io (Probe fp) st)))
     \/ (exists attrs ctx,
          fs !! fp = Some (Ret attrs) /\ APIContext key = Ret ctx /\
          __load fs p st =
            (Ret (Mod (setattr "BXE" ctx (fresh_module key attrs st))),
             add_log (loaded_script key)
               (set_module key (setattr "BXE" ctx (fresh_module key attrs st))
                  (set_module key (fresh_module key attrs st)
                     (executed key fp st)))))
     \/ (exists e, is_exit e = false /\
          __load fs p st =
            (Ret PNone, add_log (load_error_entry key e) (executed key fp st)))
     \/ (exists c,
          __load fs p st =
            (Raise (SystemExit 11),
             add_log (load_exit_entry key (SystemExit c)) (executed key fp st)))
     \/ (exists attrs e, is_exit e = false /\
          __load fs p st =
            (Ret PNone,
             add_log (load_error_entry key e)
               (set_module key (fresh_module key attrs st)
                  (executed key fp st))))
     \/ (exists attrs c,
          __load fs p st =
            (Raise (SystemExit 11),
             add_log (load_exit_entry key (SystemExit c))
               (set_module key (fresh_module key attrs st)
                  (executed key fp st))))).
Proof.
  intros key. destruct (fullpath_of_total key) as [fp Hfp].
  exists fp; split; [exact Hfp|].
  destruct (fs !! fp) as [[attrs|e]|] eqn:Hfs.
  - destruct (APIContext key) as [ctx|e] eqn:Hctx.
    + right; left. exists attrs, ctx. repeat split; try done.
      by apply load_ok.
    + destruct (is_exit e) eqn:He.
      * destruct e; try discriminate.
        do 5 right. exists attrs, status. by apply load_context_exit.
      * do 4 right; left. exists attrs, e. split; [done|].
        by apply load_context_fault.
  - destruct (is_exit e) eqn:He.
    + destruct e; try discriminate.
      do 3 right; left. exists status. by apply load_exit.
    + do 2 right; left. exists e. split; [done|]. by apply load_fault.
  - left. split; [done|]. by apply load_missing.
Qed.

(** The loader writes the cache at its own key only, and runs no script
    on behalf of another key. *)
Lemma load_frame fs p st k :
  k <> normalize_path p ->
  modules (snd (__load fs p st)) !! k = modules st !! k /\
  executions k (io (snd (__load fs p st))) = executions k (io st).
Proof.
  intros Hk. destruct (load_cases fs p st) as (fp & _ & H).
  destruct H as [[_ ->]|[(attrs & ctx & _ & _ & ->)|[(e & _ & ->)|
                 [(c & ->)|[(attrs & e & _ & ->)|(attrs & c & ->)]]]]]; simpl;
    rewrite ?lookup_insert_ne by done;
    rewrite ?executions_exec_ne by done;
    rewrite ?executions_probe; done.
Qed.

Lemma load_only_exit fs p st : only_exit (fst (__load fs p st)).
Proof.
  destruct (load_cases fs p st) as (fp & _ & H).
  destruct H as [[_ ->]|[(attrs & ctx & _ & _ & ->)|[(e & _ & ->)|
                 [(c & ->)|[(attrs & e & _ & ->)|(attrs & c & ->)]]]]]; done.
Qed.

(** ** Lookup *)

Lemma module_hit fs p m st :
  modules st !! normalize_path p = Some m ->
  _module fs p st = (Ret (Mod m), st).
Proof. intros H. unfold ScriptManager._module. by rewrite H. Qed.

Lemma module_miss fs p st :
  modules st !! normalize_path p = None ->
  _module fs p st = __load fs (normalize_path p) st.
Proof. intros H. unfold ScriptManager._module. by rewrite H. Qed.

Lemma module_only_exit fs p st : only_exit (fst (_module fs p st)).
Proof.
  destruct (modules st !! normalize_path p) as [m|] eqn:E.
  - by rewrite (module_hit _ _ _ _ E).
  - rewrite (module_miss _ _ _ E). apply load_only_exit.
Qed.

Lemma getitem_via_module fs p st :
  __getitem__ fs p st =
    match _module fs p st with
    | (Ret (Mod m), st') => (Ret (Some m), st')
    | (Ret PFalse, st') =>
        (Ret None,
         add_log (LogEntry Error ("__getitem__(): No such module: " +:+ p) None) st')
    | (Ret PNone, st') =>
        (Ret None,
         add_log (LogEntry Error ("__getitem__(): Error from module: " +:+ p) None) st')
    | (Raise e, st') => (Raise e, st')
    end.
Proof.
  unfold ScriptManager.__getitem__. run.
  destruct (_module fs p st) as [[[m| |]|e] st']; reflexivity.
Qed.

Lemma contains_via_module fs p st :
  __contains__ fs p st =
    match _module fs p st with
    | (Ret PNone, st') => (Ret false, st')
    | (Ret _, st') => (Ret true, st')
    | (Raise e, st') => (Raise e, st')
    end.
Proof.
  unfold ScriptManager.__contains__. run.
  destruct (_module fs p st) as [[[m| |]|e] st']; reflexivity.
Qed.

Lemma getitem_only_exit fs p st : only_exit (fst (__getitem__ fs p st)).
Proof.
  rewrite getitem_via_module. pose proof (module_only_exit fs p st) as H.
  destruct (_module fs p st) as [[[m| |]|e] st']; done.
Qed.

Lemma contains_only_exit fs p st : only_exit (fst (__contains__ fs p st)).
Proof.
  rewrite contains_via_module. pose proof (module_only_exit fs p st) as H.
  destruct (_module fs p st) as [[[m| |]|e] st']; done.
Qed.

(** ** The dispatcher *)

Lemma call_body_via_getitem fs key f args st :
  call_body fs key f args st =
    match __getitem__ fs key st with
    | (Ret obj, st') => (getattr_call obj f args, st')
    | (Raise e, st') => (Raise e, st')
    end.
Proof.
  unfold ScriptManager.call_body, ScriptManager.getattr_call. run.
  destruct (__getitem__ fs key st) as [[obj|e] st']; [|reflexivity].
  destruct (getattr obj f); reflexivity.
Qed.

(** What [call] makes of each way its guarded expression can end. *)
Lemma call_via_body fs p f args st :
  let key := normalize_path p in
  call fs p f args st =
    match call_body fs key f args st with
    | (Ret v, st') => (Ret v, st')
    | (Raise AttributeError, st') =>
        (Ret VNone, add_log (not_loaded_entry key f) st')
    | (Raise (SystemExit c), st') =>
        (Raise (SystemExit 11),
         add_log (call_exit_entry key (SystemExit c)) st')
    | (Raise e, st') => (Ret VNone, add_log (call_error_entry key f e) st')
    end.
Proof.
  intros key. unfold ScriptManager.call. fold key. unfold try_except.
  destruct (call_body fs key f args st) as [[v|e] st']; [reflexivity|].
  destruct e; reflexivity.
Qed.

(** C1. Whatever happens while [call] looks the unit up, looks the
    function up and invokes it, the caller sees a value or the process
    exit [SystemExit 11], never another exception: a result is handed
    through, a termination request is logged as critical and becomes the
    exit, and every other fault is logged as an error and becomes
    [None]. *)
Theorem call_contains_every_fault fs p f args st :
  only_exit (fst (call fs p f args st)) /\
  match call_body fs (normalize_path p) f args st with
  | (Ret v, st') => call fs p f args st = (Ret v, st')
  | (Raise e, st') =>
      if is_exit e then
        call fs p f args st =
          (Raise (SystemExit 11),
           add_log (call_exit_entry (normalize_path p) e) st')
      else
        exists entry,
          entry_level entry = Error /\
          call fs p f args st = (Ret VNone, add_log entry st')
  end.
Proof.
  pose proof (call_via_body fs p f args st) as H. simpl in H.
  destruct (call_body fs (normalize_path p) f args st) as [[v|e] st'].
  - rewrite H. split; done.
  - destruct e; rewrite H; simpl; (split; [done|]);
      first [reflexivity | eexists; split; [|reflexivity]; reflexivity].
Qed.

(** ** Once cached, always cached *)

Section Idempotent.

Hypothesis normalize_idem :
  forall s, normalize_path (normalize_path s) = normalize_path s.

Lemma module_keeps fs p st : keeps st (snd (_module fs p st)).
Proof.
  destruct (modules st !! normalize_path p) as [m|] eqn:E.
  - rewrite (module_hit _ _ _ _ E). apply keeps_refl.
  - rewrite (module_miss _ _ _ E). intros k m Hk.
    assert (Hne : k <> normalize_path (normalize_path p)).
    { rewrite normalize_idem. intros ->. congruence. }
    destruct (load_frame fs (normalize_path p) st k Hne) as [Hm He].
    split; [by rewrite Hm|exact He].
Qed.

Lemma getitem_keeps fs p st : keeps st (snd (__getitem__ fs p st)).
Proof.
  rewrite getitem_via_module. pose proof (module_keeps fs p st) as H.
  destruct (_module fs p st) as [[[m| |]|e] st']; simpl in *; try done;
    (eapply keeps_trans; [exact H|apply keeps_add_log]).
Qed.

Lemma contains_keeps fs p st : keeps st (snd (__contains__ fs p st)).
Proof.
  rewrite contains_via_module. pose proof (module_keeps fs p st) as H.
  destruct (_module fs p st) as [[[m| |]|e] st']; done.
Qed.

Lemma call_body_keeps fs key f args st :
  keeps st (snd (call_body fs key f args st)).
Proof.
  rewrite call_body_via_getitem. pose proof (getitem_keeps fs key st) as H.
  destruct (__getitem__ fs key st) as [[obj|e] st']; done.
Qed.

Lemma call_keeps fs p f args st : keeps st (snd (call fs p f args st)).
Proof.
  pose proof (call_via_body fs p f args st) as H. simpl in H. rewrite H.
  pose proof (call_body_keeps fs (normalize_path p) f args st) as K.
  destruct (call_body fs (normalize_path p) f args st) as [[v|e] st'];
    [done|].
  destruct e; simpl in *;
    (eapply keeps_trans; [exact K|apply keeps_add_log]).
Qed.

Lemma run_op_keeps fs o st : keeps st (run_op fs o st).
Proof.
  destruct o; simpl.
  - apply module_keeps.
  - apply getitem_keeps.
  - apply contains_keeps.
  - apply call_keeps.
Qed.

Lemma run_ops_keeps ops st : keeps st (run_ops ops st).
Proof.
  revert st; induction ops as [|[fs o] ops IH]; intros st.
  - apply keeps_refl.
  - simpl. eapply keeps_trans; [apply run_op_keeps|apply IH].
Qed.

(** A load that hands back a module has put that very module in the
    cache, and ran the script at most once for it. *)
Lemma module_loaded_is_cached fs p st m st1 :
  _module fs p st = (Ret (Mod m), st1) ->
  modules st1 !! normalize_path p = Some m /\
  executions (normalize_path p) (io st1)
    <= S (executions (normalize_path p) (io st)).
Proof.
  destruct (modules st !! normalize_path p) as [m0|] eqn:E.
  - rewrite (module_hit _ _ _ _ E). intros [= <- <-]. split; [done|lia].
  - rewrite (module_miss _ _ _ E).
    destruct (load_cases fs (normalize_path p) st) as (fp & _ & H).
    rewrite normalize_idem in H.
    destruct H as [[_ ->]|[(attrs & ctx & _ & _ & ->)|[(e & _ & ->)|
                   [(c & ->)|[(attrs & e & _ & ->)|(attrs & c & ->)]]]]];
      try discriminate.
    intros [= <- <-]. simpl. rewrite lookup_insert_eq.
    rewrite executions_exec_eq, executions_probe. split; [done|lia].
Qed.

Lemma getitem_hit fs p m st :
  modules st !! normalize_path p = Some m ->
  __getitem__ fs p st = (Ret (Some m), st).
Proof.
  intros H. rewrite getitem_via_module. by rewrite (module_hit _ _ _ _ H).
Qed.

Lemma contains_hit fs p m st :
  modules st !! normalize_path p = Some m ->
  __contains__ fs p st = (Ret true, st).
Proof.
  intros H. rewrite contains_via_module. by rewrite (module_hit _ _ _ _ H).
Qed.

(** The probe on a path whose location does not exist: [_module] hands
    back [False], and [False is not None]. *)
Lemma contains_missing fs p fp st :
  modules st !! normalize_path p = None ->
  fullpath_of (normalize_path p) = Ret fp ->
  fs !! fp = None ->
  __contains__ fs p st =
    (Ret true, add_log (no_such_script fp) (add_io (Probe fp) st)).
Proof.
  intros Hp Hfp Hfs. rewrite contains_via_module, module_miss by done.
  rewrite (load_missing fs _ fp st); [done| |done]. by rewrite normalize_idem.
Qed.

Lemma call_body_hit fs p m f args st :
  modules st !! normalize_path p = Some m ->
  call_body fs (normalize_path p) f args st = (getattr_call (Some m) f args, st).
Proof.
  intros H. rewrite call_body_via_getitem.
  rewrite (getitem_hit fs (normalize_path p) m st); [done|].
  by rewrite normalize_idem.
Qed.

(** A call on a cached unit: only the log can grow. *)
Lemma call_hit fs p m f args st :
  modules st !! normalize_path p = Some m ->
  let key := normalize_path p in
  call fs p f args st =
    match getattr_call (Some m) f args with
    | Ret v => (Ret v, st)
    | Raise AttributeError => (Ret VNone, add_log (not_loaded_entry key f) st)
    | Raise (SystemExit c) =>
        (Raise (SystemExit 11), add_log (call_exit_entry key (SystemExit c)) st)
    | Raise e => (Ret VNone, add_log (call_error_entry key f e) st)
    end.
Proof.
  intros H key. pose proof (call_via_body fs p f args st) as E. simpl in E.
  rewrite E, (call_body_hit _ _ _ _ _ _ H). fold key.
  destruct (getattr_call (Some m) f args) as [v|[]]; reflexivity.
Qed.

Lemma call_hit_frame fs p m f args st :
  modules st !! normalize_path p = Some m ->
  modules (snd (call fs p f args st)) = modules st /\
  io (snd (call fs p f args st)) = io st /\
  next_id (snd (call fs p f args st)) = next_id st.
Proof.
  intros H. pose proof (call_hit fs p m f args st H) as E. simpl in E.
  rewrite E. destruct (getattr_call (Some m) f args) as [v|[]]; done.
Qed.

(** C2. Once a load of [p] has handed back a unit, every later lookup of
    [p], by [_module], [__getitem__], [__contains__] or [call], after
    any run of the public operations, finds that same unit in the cache
    and changes neither the cache nor the I/O trace: the script's
    top-level code ran at most once for that load and never runs again,
    and no operation replaces or removes an entry that is present. *)
Theorem cached_unit_is_reused_forever fs p st m st1 ops fs' :
  _module fs p st = (Ret (Mod m), st1) ->
  let key := normalize_path p in
  let st2 := run_ops ops st1 in
  modules st1 !! key = Some m /\
  executions key (io st1) <= S (executions key (io st)) /\
  keeps st1 st2 /\
  modules st2 !! key = Some m /\
  executions key (io st2) = executions key (io st1) /\
  _module fs' p st2 = (Ret (Mod m), st2) /\
  __getitem__ fs' p st2 = (Ret (Some m), st2) /\
  __contains__ fs' p st2 = (Ret true, st2) /\
  forall f args,
    call_body fs' key f args st2 = (getattr_call (Some m) f args, st2) /\
    modules (snd (call fs' p f args st2)) = modules st2 /\
    io (snd (call fs' p f args st2)) = io st2.
Proof.
  intros Hload key st2.
  destruct (module_loaded_is_cached _ _ _ _ _ Hload) as [H1 Hx].
  pose proof (run_ops_keeps ops st1) as K. fold st2 in K.
  destruct (K _ _ H1) as [H2 E2]. fold key in H1, H2, E2, Hx.
  do 5 (split; [done|]).
  split; [by apply module_hit|].
  split; [by apply getitem_hit|].
  split; [by eapply contains_hit|].
  intros f args. split; [by apply call_body_hit|].
  split; by eapply call_hit_frame.
Qed.

(** C8. A function of a loaded unit that raises anything but the
    termination request makes [call] return [None] and add one error
    line to the log; cache, unit and I/O trace are as before, and a call
    to another function of the same unit then returns that function's
    result. *)
Theorem failed_call_leaves_unit_usable fs fs' p m f g bf bg args args' e v st :
  modules st !! normalize_path p = Some m ->
  mod_attrs m !! f = Some (Func bf) ->
  bf args = Raise e ->
  is_exit e = false ->
  mod_attrs m !! g = Some (Func bg) ->
  bg args' = Ret v ->
  let st' := snd (call fs p f args st) in
  fst (call fs p f args st) = Ret VNone /\
  (exists entry, entry_level entry = Error /\ st' = add_log entry st) /\
  modules st' = modules st /\
  io st' = io st /\
  modules st' !! normalize_path p = Some m /\
  call fs' p g args' st' = (Ret v, st').
Proof.
  intros Hm Hf Hbf He Hg Hbg st'.
  pose proof (call_hit fs p m f args st Hm) as E. simpl in E.
  unfold ScriptManager.getattr_call, ScriptManager.getattr in E.
  simpl in E. rewrite Hf in E. simpl in E. rewrite Hbf in E.
  assert (Hst : fst (call fs p f args st) = Ret VNone /\
                exists entry, entry_level entry = Error /\
                              st' = add_log entry st).
  { unfold st'. rewrite E. destruct e; try discriminate; simpl;
      (split; [done|]); eexists; (split; [|reflexivity]); done. }
  destruct Hst as [Hr (entry & Hlv & Hst)].
  assert (Hm' : modules st' !! normalize_path p = Some m) by (by rewrite Hst).
  repeat split; try done; try (by rewrite Hst); eauto.
  pose proof (call_hit fs' p m g args' st' Hm') as E'. simpl in E'.
  unfold ScriptManager.getattr_call, ScriptManager.getattr in E'.
  simpl in E'. rewrite Hg in E'. simpl in E'. by rewrite Hbg in E'.
Qed.

(** C9, as the code has it. Calling an attribute of a loaded unit that
    exists but is not callable raises [TypeError], which the last handler
    of [call] takes: the error line is the one of a failed function
    ("Error from function"), and [None] is returned. *)
Theorem data_attribute_is_call_error fs p m f d args st :
  modules st !! normalize_path p = Some m ->
  mod_attrs m !! f = Some (Data d) ->
  call fs p f args st =
    (Ret VNone, add_log (call_error_entry (normalize_path p) f TypeError) st).
Proof.
  intros Hm Hf. pose proof (call_hit fs p m f args st Hm) as E. simpl in E.
  unfold ScriptManager.getattr_call, ScriptManager.getattr in E.
  simpl in E. by rewrite Hf in E.
Qed.

(** C10. A function of a loaded unit that raises [AttributeError] in its
    body lands in the first handler of [call]: the log line is "Module
    not loaded for call", not "Error from function", and [None] is
    returned; the same unit without that function, and a path with no
    unit at all, give the same return value and the same log line. *)
Theorem attribute_error_reads_as_not_loaded fs p m f bf args q fp st :
  modules st !! normalize_path p = Some m ->
  mod_attrs m !! f = Some (Func bf) ->
  bf args = Raise AttributeError ->
  modules st !! normalize_path q = None ->
  fullpath_of (normalize_path q) = Ret fp ->
  fs !! fp = None ->
  NoneType_attrs !! f = None ->
  let key := normalize_path p in
  let m' := {| mod_id := mod_id m; mod_name := mod_name m;
               mod_attrs := delete f (mod_attrs m) |} in
  call fs p f args st = (Ret VNone, add_log (not_loaded_entry key f) st) /\
  not_loaded_entry key f <> call_error_entry key f AttributeError /\
  call fs p f args (set_module key m' st) =
    (Ret VNone, add_log (not_loaded_entry key f) (set_module key m' st)) /\
  fst (call fs q f args st) = Ret VNone /\
  last (log (snd (call fs q f args st)))
    = Some (not_loaded_entry (normalize_path q) f).
Proof.
  intros Hm Hf Hbf Hq Hfp Hfs Hnone key m'.
  split; [|split; [|split]].
  - pose proof (call_hit fs p m f args st Hm) as E. simpl in E.
    unfold ScriptManager.getattr_call, ScriptManager.getattr in E.
    simpl in E. rewrite Hf in E. simpl in E. by rewrite Hbf in E.
  - discriminate.
  - assert (Hm' : modules (set_module key m' st) !! normalize_path p = Some m')
      by apply lookup_insert_eq.
    pose proof (call_hit fs p m' f args _ Hm') as E. simpl in E.
    unfold ScriptManager.getattr_call, ScriptManager.getattr in E.
    simpl in E. by rewrite lookup_delete_eq in E.
  - pose proof (call_via_body fs q f args st) as E. simpl in E.
    rewrite call_body_via_getitem, getitem_via_module in E.
    rewrite module_miss in E by (by rewrite normalize_idem).
    rewrite (load_missing fs _ fp st) in E by (by rewrite ?normalize_idem).
    unfold ScriptManager.getattr_call, ScriptManager.getattr in E.
    simpl in E. rewrite Hnone in E. rewrite E. simpl.
    split; [done|]. by rewrite last_snoc.
Qed.

(** C4. A termination request from a script, raised by its top-level
    code while it loads or by one of its functions during a dispatched
    call, is logged at critical severity with its trace and ends in
    [sys.exit(11)] in both places; it never becomes [None] or [False].
    A call that has to load such a script first ends the same way. *)
Theorem exit_request_is_fatal fs p fp c q m f bf args c' st :
  modules st !! normalize_path p = None ->
  fullpath_of (normalize_path p) = Ret fp ->
  fs !! fp = Some (Raise (SystemExit c)) ->
  modules st !! normalize_path q = Some m ->
  mod_attrs m !! f = Some (Func bf) ->
  bf args = Raise (SystemExit c') ->
  let at_load := load_exit_entry (normalize_path p) (SystemExit c) in
  let at_call := call_exit_entry (normalize_path q) (SystemExit c') in
  __load fs p st =
    (Raise (SystemExit 11),
     add_log at_load (executed (normalize_path p) fp st)) /\
  call fs q f args st = (Raise (SystemExit 11), add_log at_call st) /\
  fst (call fs p f args st) = Raise (SystemExit 11) /\
  entry_level at_load = Critical /\
  entry_level at_call = Critical /\
  entry_trace at_load = Some (SystemExit c) /\
  entry_trace at_call = Some (SystemExit c') /\
  (11 <> 0)%Z.
Proof.
  intros Hp Hfp Hfs Hq Hf Hbf at_load at_call.
  split; [by apply load_exit|]. split.
  - pose proof (call_hit fs q m f args st Hq) as E. simpl in E.
    unfold ScriptManager.getattr_call, ScriptManager.getattr in E.
    simpl in E. rewrite Hf in E. simpl in E. by rewrite Hbf in E.
  - split; [|done].
    pose proof (call_via_body fs p f args st) as E. simpl in E.
    rewrite call_body_via_getitem, getitem_via_module in E.
    rewrite module_miss in E by (by rewrite normalize_idem).
    rewrite (load_exit fs _ fp c st) in E by (by rewrite ?normalize_idem).
    by rewrite E.
Qed.

(** C6. A path not in the cache whose concrete location does not exist:
    the load hands back [False], logs one error line and leaves the
    cache as it was; once a script that loads is at that location, the
    next load of the same path hands back its unit and caches it. *)
Theorem missing_script_is_not_cached fs fs' p fp attrs ctx st :
  let key := normalize_path p in
  modules st !! key = None ->
  fullpath_of key = Ret fp ->
  fs !! fp = None ->
  fs' !! fp = Some (Ret attrs) ->
  APIContext key = Ret ctx ->
  let st1 := add_log (no_such_script fp) (add_io (Probe fp) st) in
  let unit_ := setattr "BXE" ctx (fresh_module key attrs st1) in
  __load fs p st = (Ret PFalse, st1) /\
  _module fs p st = (Ret PFalse, st1) /\
  entry_level (no_such_script fp) = Error /\
  modules st1 = modules st /\
  fst (_module fs' p st1) = Ret (Mod unit_) /\
  modules (snd (_module fs' p st1)) !! key = Some unit_.
Proof.
  intros key Hp Hfp Hfs Hfs' Hctx st1 unit_.
  split; [by apply load_missing|].
  split.
  { rewrite module_miss by done. apply load_missing; [|done].
    by rewrite normalize_idem. }
  do 2 (split; [done|]).
  assert (E : _module fs' p st1 =
              (Ret (Mod unit_),
               add_log (loaded_script key)
                 (set_module key unit_
                    (set_module key (fresh_module key attrs st1)
                       (executed key fp st1))))).
  { rewrite module_miss by done.
    pose proof (load_ok fs' (normalize_path p) fp attrs ctx st1) as L.
    simpl in L. rewrite normalize_idem in L. by apply L. }
  rewrite E. simpl. split; [done|]. apply lookup_insert_eq.
Qed.

End Idempotent.

(** The marker is no suffix of itself: a marked path is longer than
    what follows the marker. *)
Lemma marked_is_longer (r : string) : COMMON +:+ r <> r.
Proof.
  intros H. apply (f_equal String.length) in H.
  rewrite strlen_app in H. simpl in H. lia.
Qed.

(** C7, as the code has it. A path that starts with the marker resolves
    to "common/" followed by what comes after the marker; any other path
    resolves to the world's directory, a slash and the path; for a world
    directory other than "common" the same suffix so leads to two
    different locations. The marker alone resolves to "common/" without
    a fault; whatever the normalizer makes of it, the resolver hands
    back a location, and the load is a not-found exactly when nothing
    exists there. *)
Theorem resolver_routes_by_marker fs rest filename suffix st :
  startswith COMMON filename = false ->
  world_dir <> "common" ->
  fullpath_of (COMMON +:+ rest) = Ret ("common/" +:+ rest) /\
  fullpath_of filename = Ret (world_dir +:+ "/" +:+ filename) /\
  fullpath_of (COMMON +:+ suffix) <> fullpath_of suffix /\
  fullpath_of COMMON = Ret "common/" /\
  match fullpath_of (normalize_path COMMON) with
  | Raise _ => False
  | Ret fp =>
      match fs !! fp with
      | None =>
          __load fs COMMON st
          = (Ret PFalse, add_log (no_such_script fp) (add_io (Probe fp) st))
      | Some _ => fst (__load fs COMMON st) <> Ret PFalse
      end
  end.
Proof.
  intros Hfile Hdir.
  split; [apply fullpath_of_common|].
  split; [by apply fullpath_of_world|].
  split.
  { rewrite fullpath_of_common.
    destruct (startswith COMMON suffix) eqn:Hsuf.
    - apply startswith_app in Hsuf as [r ->]. rewrite fullpath_of_common.
      intros [= E]. exact (marked_is_longer r E).
    - rewrite (fullpath_of_world _ Hsuf). intros [= E]. apply Hdir. symmetry.
      apply (app_inj_tail _ _ ("/" +:+ suffix)). exact E. }
  split; [reflexivity|].
  destruct (load_cases fs COMMON st) as (fp & Hfp & H). rewrite Hfp.
  destruct (fs !! fp) as [sc|] eqn:Hfs.
  - destruct H as [[[=] _]|[(attrs & ctx & _ & _ & ->)|[(e & _ & ->)|
                   [(c & ->)|[(attrs & e & _ & ->)|(attrs & c & ->)]]]]];
      discriminate.
  - by apply load_missing.
Qed.

End Properties.
End ScriptManagerSpec.

(** * The manager at work on the demo disk *)

Module Checks.
Import ScriptManager ScriptManagerSpec Demo.

Lemma slashes_idem (s : string) : slashes (slashes s) = slashes s.
Proof.
  induction s as [|c r IH]; [reflexivity|]. simpl. rewrite IH. f_equal.
  destruct (Ascii.eqb c "\") eqn:E; [reflexivity|]. by rewrite E.
Qed.

Lemma hello_is_loaded :
  _module slashes "world" new_context disk "hello.py" empty_manager
  = (Ret (Mod hello_unit), hello_loaded).
Proof. vm_compute. reflexivity. Qed.

Lemma hello_is_cached : modules hello_loaded !! "hello.py" = Some hello_unit.
Proof. vm_compute. reflexivity. Qed.

(** C2 on the demo disk: after a day of calls and probes "hello.py" still
    maps to the unit of its first load, which ran once. *)
Lemma cached_unit_is_reused_forever_witness :
  modules (run_ops slashes "world" new_context ∅ busy_day hello_loaded)
    !! "hello.py" = Some hello_unit /\
  executions "hello.py"
    (io (run_ops slashes "world" new_context ∅ busy_day hello_loaded)) = 1.
Proof.
  pose proof (cached_unit_is_reused_forever slashes "world" new_context ∅
                slashes_idem disk "hello.py" empty_manager hello_unit
                hello_loaded busy_day disk hello_is_loaded) as H.
  cbv zeta in H. destruct H as (_ & _ & _ & H & E & _).
  split; [exact H|]. exact (eq_trans E (eq_refl 1)).
Defined.

(** C3 at work: the script runs, the context constructor fails; the load
    reports an error, yet the module without its context handle is in
    the cache, and the next lookup hands it out instead of loading
    again. *)
Theorem context_fault_leaves_module_cached :
  let half_built := fresh_module "hello.py" hello_attrs empty_manager in
  let r := __load slashes "world" no_context disk "hello.py" empty_manager in
  fst r = Ret PNone /\
  modules (snd r) !! "hello.py" = Some half_built /\
  mod_attrs half_built !! "BXE" = None /\
  _module slashes "world" no_context disk "hello.py" (snd r)
    = (Ret (Mod half_built), snd r).
Proof. vm_compute. repeat split; reflexivity. Qed.

(** C4 on the demo disk. *)
Lemma exit_request_is_fatal_witness :
  fst (__load slashes "world" new_context disk "halt.py" hello_loaded)
    = Raise (SystemExit 11) /\
  fst (call slashes "world" new_context ∅ disk "hello.py" "quit" [] hello_loaded)
    = Raise (SystemExit 11).
Proof.
  pose proof (exit_request_is_fatal slashes "world" new_context ∅
                slashes_idem disk "halt.py" "world/halt.py" 0 "hello.py"
                hello_unit "quit" (fun _ => Raise (SystemExit 0)) [] 0
                hello_loaded) as H.
  cbv zeta in H.
  destruct H as (L & C & _);
    [vm_compute; reflexivity ..
    |split; [exact (f_equal fst L)|exact (f_equal fst C)]].
Defined.

(** C5 at work: nothing exists at "world/nope.py", and the probe says
    the script is there. *)
Theorem contains_says_yes_to_missing_script :
  disk !! "world/nope.py" = None /\
  __contains__ slashes "world" new_context disk "nope.py" empty_manager
  = (Ret true,
     add_log (no_such_script "world/nope.py")
       (add_io (Probe "world/nope.py") empty_manager)).
Proof. vm_compute. split; reflexivity. Qed.

(** C6 on the demo disk: first an empty disk, then the real one. *)
Lemma missing_script_is_not_cached_witness :
  _module slashes "world" new_context ∅ "hello.py" empty_manager
  = (Ret PFalse,
     add_log (no_such_script "world/hello.py")
       (add_io (Probe "world/hello.py") empty_manager)).
Proof.
  pose proof (missing_script_is_not_cached slashes "world" new_context
                slashes_idem ∅ disk "hello.py" "world/hello.py" hello_attrs
                (VContext "hello.py") empty_manager) as H.
  cbv zeta in H.
  destruct H as (_ & H & _); [vm_compute; reflexivity ..|exact H].
Defined.

(** C7 on the demo disk. *)
Lemma resolver_routes_by_marker_witness :
  fullpath_of "world" "$COMMON$/hello.py" = Ret "common/hello.py" /\
  fullpath_of "world" "hello.py" = Ret "world/hello.py" /\
  fullpath_of "world" "$COMMON$/hello.py" <> fullpath_of "world" "hello.py".
Proof.
  destruct (resolver_routes_by_marker slashes "world" new_context disk
              "hello.py" "hello.py" "hello.py" empty_manager)
    as (A & B & C & _);
    [reflexivity|discriminate|split; [exact A|split; [exact B|exact C]]].
Defined.

(** C7 as stated fails twice. A world whose directory is "common" sends
    the marked and the plain spelling of a suffix to one location. And
    whatever the normalizer, the world directory and the context
    constructor are, the load of the marker alone is not a not-found on
    every disk: something may exist at the location it resolves to. *)
Lemma marked_and_plain_routes_can_coincide :
  fullpath_of "common" "$COMMON$/hello.py" = fullpath_of "common" "hello.py" /\
  ~ (exists (normalize_path : string -> string) (world_dir : string)
            (APIContext : string -> outcome value),
       forall fs st,
         fst (__load normalize_path world_dir APIContext fs "$COMMON$/" st)
         = Ret PFalse).
Proof.
  split; [reflexivity|].
  intros (N & wd & ctx & H).
  destruct (fullpath_of_total wd (N "$COMMON$/")) as [fp Hfp].
  specialize (H {[ fp := Raise AttributeError ]} empty_manager).
  rewrite (load_fault N wd ctx _ "$COMMON$/" fp AttributeError) in H;
    [discriminate|exact Hfp|apply lookup_singleton_eq|reflexivity].
Qed.

(** C8 on the demo disk: "boom" fails, "greet" still answers. *)
Lemma failed_call_leaves_unit_usable_witness :
  fst (call slashes "world" new_context ∅ disk "hello.py" "boom" [] hello_loaded)
    = Ret VNone /\
  fst (call slashes "world" new_context ∅ disk "hello.py" "greet" []
         (snd (call slashes "world" new_context ∅ disk "hello.py" "boom" []
                 hello_loaded)))
    = Ret (VStr "hi").
Proof.
  pose proof (failed_call_leaves_unit_usable slashes "world" new_context ∅
                slashes_idem disk disk "hello.py" hello_unit "boom" "greet"
                (fun _ => Raise (Fault "ValueError"))
                (fun _ => Ret (VStr "hi")) [] [] (Fault "ValueError")
                (VStr "hi") hello_loaded) as H.
  cbv zeta in H.
  destruct H as (R & _ & _ & _ & _ & G);
    [vm_compute; reflexivity ..
    |split; [exact R|exact (f_equal fst G)]].
Defined.

(** C9 on the demo disk: "speed" is a number. *)
Lemma data_attribute_is_call_error_witness :
  call slashes "world" new_context ∅ disk "hello.py" "speed" [] hello_loaded
  = (Ret VNone,
     add_log (call_error_entry "hello.py" "speed" TypeError) hello_loaded).
Proof.
  apply (data_attribute_is_call_error slashes "world" new_context ∅
           slashes_idem disk "hello.py" hello_unit "speed" (VInt 5) []
           hello_loaded); vm_compute; reflexivity.
Defined.

(** C9 as stated fails: the line logged for the call of a data attribute
    is "Error from function", not "Module not loaded for call". *)
Lemma data_attribute_is_not_not_loaded :
  last (log (snd (call slashes "world" new_context ∅ disk "hello.py" "speed" []
                    hello_loaded)))
    = Some (call_error_entry "hello.py" "speed" TypeError) /\
  last (log (snd (call slashes "world" new_context ∅ disk "hello.py" "speed" []
                    hello_loaded)))
    <> Some (not_loaded_entry "hello.py" "speed").
Proof. split; [vm_compute; reflexivity|vm_compute; discriminate]. Qed.

(** C10 on the demo disk: "lost" raises [AttributeError] itself. *)
Lemma attribute_error_reads_as_not_loaded_witness :
  call slashes "world" new_context ∅ disk "hello.py" "lost" [] hello_loaded
  = (Ret VNone, add_log (not_loaded_entry "hello.py" "lost") hello_loaded).
Proof.
  pose proof (attribute_error_reads_as_not_loaded slashes "world" new_context
                ∅ slashes_idem disk "hello.py" hello_unit "lost"
                (fun _ => Raise AttributeError) [] "nope.py" "world/nope.py"
                hello_loaded) as H.
  cbv zeta in H.
  destruct H as (H & _); [vm_compute; reflexivity ..|exact H].
Defined.

End Checks.

(** * More on the script manager *)

Module ScriptManagerMore.
Import ScriptManager ScriptManagerSpec.

(** ** Unit names *)

Lemma contains_char_app_sep c a b :
  contains_char c (a +:+ String c b) = true.
Proof.
  induction a as [|x a IH].
  - change (contains_char c (String c b) = true). simpl.
    by rewrite Ascii.eqb_refl.
  - change (contains_char c (String x (a +:+ String c b)) = true). simpl.
    rewrite IH. by destruct (Ascii.eqb x c).
Qed.

Lemma path_tail_plain t : contains_char "/" t = false -> path_tail t = t.
Proof.
  destruct t as [|c t]; [done|]. simpl.
  destruct (Ascii.eqb c "/") eqn:E; [discriminate|]. by intros ->.
Qed.

Lemma path_tail_dir d t :
  contains_char "/" t = false -> path_tail (d +:+ "/" +:+ t) = t.
Proof.
  intros Ht. induction d as [|c d IH].
  - change (path_tail (String "/" t) = t). simpl. by rewrite Ht.
  - change (path_tail (String c (d +:+ String "/" t)) = t). simpl.
    rewrite contains_char_app_sep. exact IH.
Qed.

Lemma rfind_absent c s : contains_char c s = false -> rfind c s = None.
Proof.
  induction s as [|a s IH]; [done|]. simpl.
  destruct (Ascii.eqb a c); [discriminate|]. intros H. by rewrite IH.
Qed.

Lemma rfind_last c n e :
  contains_char c e = false ->
  rfind c (n +:+ String c e) = Some (String.length n).
Proof.
  intros He. induction n as [|a n IH].
  - change (rfind c (String c e) = Some 0). simpl.
    by rewrite (rfind_absent _ _ He), Ascii.eqb_refl.
  - change (rfind c (String a (n +:+ String c e)) = Some (S (String.length n))).
    simpl. by rewrite IH.
Qed.

Lemma substring_prefix n r : substring 0 (String.length n) (n +:+ r) = n.
Proof.
  induction n as [|a n IH]; [by destruct r|].
  change (substring 0 (S (String.length n)) (String a (n +:+ r)) = String a n).
  simpl. by rewrite IH.
Qed.

Lemma splitext_root_ext n e :
  all_dots n = false ->
  contains_char "." e = false ->
  splitext_root (n +:+ "." +:+ e) = n.
Proof.
  intros Hn He. unfold splitext_root.
  change (n +:+ "." +:+ e) with (n +:+ String "." e).
  rewrite (rfind_last _ _ _ He), substring_prefix. by rewrite Hn.
Qed.

(** X1. The unit name of a script is its file name without directory
    and without its last extension. *)
Theorem unit_name_is_basename_without_extension dir name ext :
  contains_char "/" name = false ->
  contains_char "/" ext = false ->
  contains_char "." ext = false ->
  all_dots name = false ->
  splitext_root (path_tail (dir +:+ "/" +:+ name +:+ "." +:+ ext)) = name /\
  splitext_root (path_tail (name +:+ "." +:+ ext)) = name.
Proof.
  intros Hn He Hd Ha.
  assert (Ht : contains_char "/" (name +:+ "." +:+ ext) = false).
  { clear Ha Hd. induction name as [|a n IH].
    - change (contains_char "/" (String "." ext) = false). simpl. exact He.
    - change (contains_char "/" (String a (n +:+ "." +:+ ext)) = false).
      simpl in *. destruct (Ascii.eqb a "/"); [discriminate|]. by apply IH. }
  rewrite (path_tail_dir dir _ Ht), (path_tail_plain _ Ht).
  split; by apply splitext_root_ext.
Qed.

Section More.

Variable normalize_path : string -> string.
Variable world_dir : string.
Variable APIContext : string -> outcome value.
Variable NoneType_attrs : gmap string attr.

Local Abbreviation fullpath_of := (ScriptManager.fullpath_of world_dir).
Local Abbreviation __load := (ScriptManager.__load normalize_path world_dir APIContext).
Local Abbreviation _module := (ScriptManager._module normalize_path world_dir APIContext).
Local Abbreviation __contains__ :=
  (ScriptManager.__contains__ normalize_path world_dir APIContext).
Local Abbreviation __getitem__ :=
  (ScriptManager.__getitem__ normalize_path world_dir APIContext).
Local Abbreviation getattr_call := (ScriptManager.getattr_call NoneType_attrs).
Local Abbreviation call_body :=
  (ScriptManager.call_body normalize_path world_dir APIContext NoneType_attrs).
Local Abbreviation call :=
  (ScriptManager.call normalize_path world_dir APIContext NoneType_attrs).
Local Abbreviation run_op :=
  (ScriptManager.run_op normalize_path world_dir APIContext NoneType_attrs).
Local Abbreviation run_ops :=
  (ScriptManager.run_ops normalize_path world_dir APIContext NoneType_attrs).

(** X2. The lookups are not crash-proof against a termination request,
    but against everything else: [_module], [__getitem__] and
    [__contains__] hand back a result or end in [SystemExit 11]. *)
Theorem lookups_raise_only_exit fs p st :
  only_exit (fst (_module fs p st)) /\
  only_exit (fst (__getitem__ fs p st)) /\
  only_exit (fst (__contains__ fs p st)).
Proof.
  split; [apply module_only_exit|].
  split; [apply getitem_only_exit|apply contains_only_exit].
Qed.

(** ** Which part of the cache an operation can touch *)

Lemma getitem_modules fs p st :
  modules (snd (__getitem__ fs p st)) = modules (snd (_module fs p st)).
Proof.
  rewrite getitem_via_module.
  by destruct (_module fs p st) as [[[m| |]|e] st'].
Qed.

Lemma contains_modules fs p st :
  modules (snd (__contains__ fs p st)) = modules (snd (_module fs p st)).
Proof.
  rewrite contains_via_module.
  by destruct (_module fs p st) as [[[m| |]|e] st'].
Qed.

Lemma call_modules fs p f args st :
  modules (snd (call fs p f args st))
  = modules (snd (_module fs (normalize_path p) st)).
Proof.
  pose proof (call_via_body normalize_path world_dir APIContext
                NoneType_attrs fs p f args st) as E.
  cbv zeta in E. rewrite E, call_body_via_getitem.
  rewrite <- getitem_modules.
  destruct (__getitem__ fs (normalize_path p) st) as [[obj|e] st'];
    simpl.
  - by destruct (getattr_call obj f args) as [v|[]].
  - by destruct e.
Qed.

Lemma module_frame fs p st k :
  k <> normalize_path (normalize_path p) ->
  modules (snd (_module fs p st)) !! k = modules st !! k.
Proof.
  intros Hk. destruct (modules st !! normalize_path p) as [m|] eqn:E.
  - by rewrite (module_hit _ _ _ _ _ _ _ E).
  - rewrite (module_miss _ _ _ _ _ _ E).
    by destruct (load_frame normalize_path world_dir APIContext fs
                   (normalize_path p) st k Hk).
Qed.

(** X3. An operation on a path reads and writes the cache at that
    path's key alone: every other key, cached or not, is as before. *)
Theorem operation_touches_own_key_only fs p f args st k :
  (forall s, normalize_path (normalize_path s) = normalize_path s) ->
  k <> normalize_path p ->
  modules (snd (_module fs p st)) !! k = modules st !! k /\
  modules (snd (__getitem__ fs p st)) !! k = modules st !! k /\
  modules (snd (__contains__ fs p st)) !! k = modules st !! k /\
  modules (snd (call fs p f args st)) !! k = modules st !! k.
Proof.
  intros Hidem Hk.
  assert (H : modules (snd (_module fs p st)) !! k = modules st !! k)
    by (apply module_frame; by rewrite Hidem).
  rewrite getitem_modules, contains_modules, call_modules.
  repeat split; try done. apply module_frame. by rewrite !Hidem.
Qed.

(** ** Names of cached units *)

Lemma load_named fs p st :
  named_after_key st -> named_after_key (snd (__load fs p st)).
Proof.
  intros Hst k m.
  destruct (load_cases normalize_path world_dir APIContext fs p st)
    as (fp & _ & H).
  destruct H as [[_ ->]|[(attrs & ctx & _ & _ & ->)|[(e & _ & ->)|
                 [(c & ->)|[(attrs & e & _ & ->)|(attrs & c & ->)]]]]];
    cbn [snd modules set_module add_log executed alloc add_io]; intros Hm;
    try (rewrite lookup_insert in Hm; case_decide as Hk;
         [injection Hm as <-; subst k; reflexivity|]);
    rewrite ?lookup_insert_ne in Hm by done;
    exact (Hst _ _ Hm).
Qed.

Lemma module_named fs p st :
  named_after_key st -> named_after_key (snd (_module fs p st)).
Proof.
  intros Hst. destruct (modules st !! normalize_path p) as [m|] eqn:E.
  - by rewrite (module_hit _ _ _ _ _ _ _ E).
  - rewrite (module_miss _ _ _ _ _ _ E). by apply load_named.
Qed.

Lemma run_op_named fs o st :
  named_after_key st -> named_after_key (run_op fs o st).
Proof.
  intros Hst k m. destruct o; simpl.
  - by apply module_named.
  - rewrite getitem_modules. by apply module_named.
  - rewrite contains_modules. by apply module_named.
  - rewrite call_modules. by apply module_named.
Qed.

(** X4. Whatever the engine does with the manager from its start, every
    cached unit is named after its own cache key. *)
Theorem cached_units_are_named_after_their_key ops :
  named_after_key (run_ops ops empty_manager).
Proof.
  assert (G : forall st, named_after_key st -> named_after_key (run_ops ops st)).
  { induction ops as [|[fs o] ops IH]; intros st Hst; [done|].
    simpl. apply IH. by apply run_op_named. }
  apply G. intros k m H. simpl in H. by rewrite lookup_empty in H.
Qed.

Section Idempotent.

Hypothesis normalize_idem :
  forall s, normalize_path (normalize_path s) = normalize_path s.

(** X5. A script whose top-level code fails is not cached and runs
    again on every lookup, so a script repaired on disk loads on the
    next lookup. *)
Theorem failing_script_is_run_again fs fs' p fp e attrs ctx st :
  let key := normalize_path p in
  modules st !! key = None ->
  fullpath_of key = Ret fp ->
  fs !! fp = Some (Raise e) ->
  is_exit e = false ->
  fs' !! fp = Some (Ret attrs) ->
  APIContext key = Ret ctx ->
  let st1 := add_log (load_error_entry key e) (executed key fp st) in
  let st2 := add_log (load_error_entry key e) (executed key fp st1) in
  _module fs p st = (Ret PNone, st1) /\
  modules st1 = modules st /\
  _module fs p st1 = (Ret PNone, st2) /\
  executions key (io st2) = S (S (executions key (io st))) /\
  fst (_module fs' p st1)
    = Ret (Mod (setattr "BXE" ctx (fresh_module key attrs st1))).
Proof.
  intros key Hp Hfp Hfs He Hfs' Hctx st1 st2.
  assert (L : forall s, modules s !! key = None ->
                _module fs p s
                = (Ret PNone, add_log (load_error_entry key e) (executed key fp s))).
  { intros s Hs. rewrite (module_miss _ _ _ _ _ _ Hs).
    pose proof (load_fault normalize_path world_dir APIContext fs
                  (normalize_path p) fp e s) as L.
    cbv zeta in L. rewrite normalize_idem in L. by apply L. }
  split; [by apply L|]. split; [done|]. split; [by apply L|].
  split.
  { unfold st2, st1, executed. cbn [io add_log alloc add_io].
    by repeat (rewrite executions_exec_eq || rewrite executions_probe). }
  rewrite module_miss by done.
  pose proof (load_ok normalize_path world_dir APIContext fs'
                (normalize_path p) fp attrs ctx st1) as L'.
  cbv zeta in L'. rewrite normalize_idem in L'. by rewrite L'.
Qed.

(** X6. A freshly loaded unit has the script's attributes, except that
    [BXE] is the context handle built for its key, also when the script
    defined a [BXE] of its own; it carries the next object identity,
    and one info line ends the log. *)
Theorem loaded_unit_carries_its_context fs p fp attrs ctx st :
  let key := normalize_path p in
  modules st !! key = None ->
  fullpath_of key = Ret fp ->
  fs !! fp = Some (Ret attrs) ->
  APIContext key = Ret ctx ->
  exists m st',
    _module fs p st = (Ret (Mod m), st') /\
    mod_attrs m !! "BXE" = Some (Data ctx) /\
    (forall name, name <> "BXE" -> mod_attrs m !! name = attrs !! name) /\
    mod_id m = next_id st /\
    next_id st' = S (next_id st) /\
    modules st' = <[key := m]> (modules st) /\
    last (log st') = Some (loaded_script key).
Proof.
  intros key Hp Hfp Hfs Hctx.
  pose proof (load_ok normalize_path world_dir APIContext fs
                (normalize_path p) fp attrs ctx st) as L.
  cbv zeta in L. rewrite normalize_idem in L.
  specialize (L Hfp Hfs Hctx).
  eexists _, _. split; [by rewrite module_miss|].
  split; [apply lookup_insert_eq|].
  split; [intros name Hn; by apply lookup_insert_ne|].
  split; [done|]. split; [done|].
  split; [simpl; apply insert_insert_eq|].
  simpl. by rewrite last_snoc.
Qed.

(** X7. A call on a path with no unit goes on with [None] in the unit's
    place: with no attribute of that name on [None] it logs three error
    lines and returns [None]; a method of [None] is called and its value
    returned; a datum of [None] is a failed call. The cache stays as it
    was. *)
Theorem call_without_unit_goes_to_None fs p fp f args st :
  let key := normalize_path p in
  modules st !! key = None ->
  fullpath_of key = Ret fp ->
  fs !! fp = None ->
  let st1 := add_log (no_such_module key)
               (add_log (no_such_script fp) (add_io (Probe fp) st)) in
  call_body fs key f args st = (getattr_call None f args, st1) /\
  modules (snd (call fs p f args st)) = modules st /\
  match NoneType_attrs !! f with
  | None =>
      call fs p f args st = (Ret VNone, add_log (not_loaded_entry key f) st1)
  | Some (Data _) =>
      call fs p f args st
      = (Ret VNone, add_log (call_error_entry key f TypeError) st1)
  | Some (Func body) =>
      match body args with
      | Ret v => call fs p f args st = (Ret v, st1)
      | Raise _ => True
      end
  end.
Proof.
  intros key Hp Hfp Hfs st1. subst key.
  assert (B : call_body fs (normalize_path p) f args st
              = (getattr_call None f args, st1)).
  { rewrite call_body_via_getitem, getitem_via_module.
    rewrite module_miss by (by rewrite normalize_idem).
    by rewrite (load_missing normalize_path world_dir APIContext fs _ fp st)
      by (by rewrite ?normalize_idem). }
  pose proof (call_via_body normalize_path world_dir APIContext
                NoneType_attrs fs p f args st) as E.
  cbv zeta in E. rewrite B in E.
  split; [exact B|]. split.
  { rewrite E. by destruct (getattr_call None f args) as [v|[]]. }
  unfold ScriptManager.getattr_call, ScriptManager.getattr in E.
  destruct (NoneType_attrs !! f) as [[body|d]|]; simpl in E; try done.
  by destruct (body args).
Qed.

(** X8. [__getitem__] hands back [None] for a script that is missing and
    for one whose top-level code fails, and tells the two apart in its
    log line, which shows the item as the caller wrote it. *)
Theorem getitem_tells_missing_from_failing fs p fp st :
  let key := normalize_path p in
  modules st !! key = None ->
  fullpath_of key = Ret fp ->
  match fs !! fp with
  | None =>
      __getitem__ fs p st
      = (Ret None,
         add_log (no_such_module p)
           (add_log (no_such_script fp) (add_io (Probe fp) st)))
  | Some (Raise e) =>
      if is_exit e then True
      else __getitem__ fs p st
           = (Ret None,
              add_log (error_from_module p)
                (add_log (load_error_entry key e) (executed key fp st)))
  | Some (Ret _) => True
  end.
Proof.
  intros key Hp Hfp. rewrite getitem_via_module, module_miss by done.
  destruct (fs !! fp) as [[attrs|e]|] eqn:Hfs; [done| |].
  - destruct (is_exit e) eqn:He; [done|].
    pose proof (load_fault normalize_path world_dir APIContext fs
                  (normalize_path p) fp e st) as L.
    cbv zeta in L. rewrite normalize_idem in L. by rewrite L.
  - by rewrite (load_missing normalize_path world_dir APIContext fs _ fp st)
      by (by rewrite ?normalize_idem).
Qed.

End Idempotent.
End More.
End ScriptManagerMore.

(** * Properties of the overlay manager *)

Module OverlayManagerSpec.
Import OverlayManager.

Section Properties.

Variable surface : Type.
Variable scale_t : Type.
Variable py_id : surface -> Z.
Variable load_image : string -> option scale_t -> option surface.
Variable transform_scale : surface -> scale_t -> surface.
Variable world_dir : string.

Local Abbreviation state := (OverlayManager.state surface scale_t).
Local Abbreviation resolve_image :=
  (OverlayManager.resolve_image load_image transform_scale world_dir).
Local Abbreviation insert_overlay :=
  (OverlayManager.insert_overlay py_id load_image transform_scale world_dir).
Local Abbreviation rescale_overlay :=
  (OverlayManager.rescale_overlay transform_scale).

(** ** Inserting *)

(** X9. [insert_overlay] writes to the overlays and renders exactly when
    it hands back an ID: the ID is the [id()] of the stored image, the
    entry holds the given position and persistence, and no other overlay
    changes. A foreign argument gives [False], a failed load [None]; both
    leave overlays and screen alone. *)
Theorem insert_writes_exactly_when_it_returns_an_id
    imagefile pos scale persist (st : state) :
  let r := insert_overlay imagefile pos scale persist st in
  match fst r with
  | NewId k =>
      exists img fname,
        resolve_image imagefile scale = Some (Some img, fname) /\
        k = py_id img /\
        overlays (snd r) !! k
          = Some {| filename := fname; image := img; position := pos;
                    persistent := persist |} /\
        (forall j, j <> k -> overlays (snd r) !! j = overlays st !! j) /\
        renders (snd r) = S (renders st)
  | InsFalse =>
      imagefile = Other /\
      overlays (snd r) = overlays st /\ renders (snd r) = renders st
  | InsNone =>
      (exists name, imagefile = FromFile name) /\
      overlays (snd r) = overlays st /\ renders (snd r) = renders st
  end.
Proof.
  unfold OverlayManager.insert_overlay.
  destruct imagefile as [name|s|]; simpl.
  - destruct (load_image (world_dir +:+ "/" +:+ name) scale) as [img|]; simpl.
    + exists img, (Some name). repeat split; try done.
      * apply lookup_insert_eq.
      * intros j Hj. by apply lookup_insert_ne.
    + eauto.
  - eexists _, None. repeat split; try done.
    + apply lookup_insert_eq.
    + intros j Hj. by apply lookup_insert_ne.
  - done.
Qed.

(** X10. The ID is the identity of the surface: inserting the same
    surface a second time hands back the same ID and replaces the first
    overlay instead of adding one. *)
Theorem inserting_a_surface_twice_keeps_one_overlay
    s pos1 pos2 persist1 persist2 (st : state) :
  let r1 := insert_overlay (Loaded s) pos1 None persist1 st in
  let r2 := insert_overlay (Loaded s) pos2 None persist2 (snd r1) in
  fst r1 = NewId (py_id s) /\
  fst r2 = NewId (py_id s) /\
  overlays (snd r2)
    = overlays (snd (insert_overlay (Loaded s) pos2 None persist2 st)) /\
  size (overlays (snd r2)) = size (overlays (snd r1)).
Proof.
  simpl. repeat split.
  - apply insert_insert_eq.
  - apply map_size_insert_Some. rewrite lookup_insert_eq. eauto.
Qed.

(** ** Removing *)

(** X11. Removing an overlay right after inserting it under a fresh ID
    gives back the overlays as they were, at the price of two renders. *)
Theorem insert_then_remove_restores_overlays
    imagefile pos scale persist k (st : state) :
  let r := insert_overlay imagefile pos scale persist st in
  fst r = NewId k ->
  overlays st !! k = None ->
  fst (remove_overlay k (snd r)) = true /\
  overlays (snd (remove_overlay k (snd r))) = overlays st /\
  renders (snd (remove_overlay k (snd r))) = S (S (renders st)).
Proof.
  unfold OverlayManager.insert_overlay.
  destruct (resolve_image imagefile scale) as [[[img|] fname]|]; simpl;
    try discriminate.
  intros [= <-] Hfresh. unfold OverlayManager.remove_overlay. simpl.
  rewrite lookup_insert_eq. simpl. repeat split.
  by apply delete_insert_id.
Qed.

(** X12. An overlay can be removed once: whatever the first
    [remove_overlay] did, the ID is gone after it, and a second one
    hands back [False] and leaves overlays and screen alone. *)
Theorem remove_twice_fails_the_second_time k (st : state) :
  let st1 := snd (remove_overlay k st) in
  overlays st1 !! k = None /\
  fst (remove_overlay k st1) = false /\
  overlays (snd (remove_overlay k st1)) = overlays st1 /\
  renders (snd (remove_overlay k st1)) = renders st1.
Proof.
  intros st1.
  assert (H : overlays st1 !! k = None).
  { unfold st1, OverlayManager.remove_overlay.
    destruct (overlays st !! k) eqn:E; simpl; [apply lookup_delete_eq|done]. }
  split; [exact H|]. clearbody st1.
  unfold OverlayManager.remove_overlay. by rewrite H.
Qed.

(** ** Updating in place *)

(** X13. [remove_overlay], [reposition_overlay] and [rescale_overlay]
    succeed exactly on an ID that is present, and render exactly when
    they succeed; on an unknown ID they leave the overlays alone. *)
Theorem update_succeeds_exactly_on_known_id k pos sc (st : state) :
  let known := bool_decide (is_Some (overlays st !! k)) in
  let cost := if known then 1 else 0 in
  (fst (remove_overlay k st) = known /\
   fst (reposition_overlay k pos st) = known /\
   fst (rescale_overlay k sc st) = known) /\
  (renders (snd (remove_overlay k st)) = renders st + cost /\
   renders (snd (reposition_overlay k pos st)) = renders st + cost /\
   renders (snd (rescale_overlay k sc st)) = renders st + cost) /\
  (if known then True
   else overlays (snd (remove_overlay k st)) = overlays st /\
        overlays (snd (reposition_overlay k pos st)) = overlays st /\
        overlays (snd (rescale_overlay k sc st)) = overlays st).
Proof.
  cbv zeta.
  unfold OverlayManager.remove_overlay, OverlayManager.reposition_overlay,
    OverlayManager.rescale_overlay.
  destruct (overlays st !! k) as [o|] eqn:E.
  - rewrite bool_decide_eq_true_2 by eauto. simpl. repeat split; lia.
  - rewrite bool_decide_eq_false_2 by (by intros [? ?]). simpl.
    repeat split; lia.
Qed.

(** X14. [reposition_overlay] changes one position and nothing else:
    the set of IDs, every image, filename and persistence flag stay, as
    do the positions of the other overlays; of two repositionings of one
    overlay the last one counts. *)
Theorem reposition_changes_one_position_only k pos pos' (st : state) :
  let st1 := snd (reposition_overlay k pos st) in
  dom (overlays st1) = dom (overlays st) /\
  (forall j, image <$> overlays st1 !! j = image <$> overlays st !! j) /\
  (forall j, filename <$> overlays st1 !! j = filename <$> overlays st !! j) /\
  (forall j, persistent <$> overlays st1 !! j
             = persistent <$> overlays st !! j) /\
  (forall j, j <> k -> overlays st1 !! j = overlays st !! j) /\
  position <$> overlays st1 !! k = (fun _ => pos) <$> overlays st !! k /\
  overlays (snd (reposition_overlay k pos' st1))
    = overlays (snd (reposition_overlay k pos' st)).
Proof.
  unfold OverlayManager.reposition_overlay.
  destruct (overlays st !! k) as [o|] eqn:E; simpl.
  - split; [apply dom_insert_lookup_L; eauto|].
    assert (F : forall (A : Type) (g : overlay surface -> A) (x : overlay surface) j,
              g x = g o ->
              g <$> <[k:=x]> (overlays st) !! j = g <$> overlays st !! j).
    { intros A g x j Hg. destruct (decide (k = j)) as [<-|Hj].
      - rewrite lookup_insert_eq, E. simpl. by rewrite Hg.
      - by rewrite lookup_insert_ne. }
    do 3 (split; [intros j; by apply F|]).
    split; [intros j Hj; by apply lookup_insert_ne|].
    split; [by rewrite lookup_insert_eq|].
    rewrite lookup_insert_eq. simpl. by rewrite insert_insert_eq.
  - rewrite ?E. simpl. by rewrite ?E.
Qed.

(** X15. [rescale_overlay] replaces one image by its scaled version and
    nothing else; the overlay keeps its ID, so it can still be removed
    under it; a second rescaling scales the already scaled image, not
    the original. *)
Theorem rescale_replaces_the_image_under_the_same_id k sc sc' o (st : state) :
  overlays st !! k = Some o ->
  let st1 := snd (rescale_overlay k sc st) in
  let st2 := snd (rescale_overlay k sc' st1) in
  overlays st1
    = <[k := {| filename := filename o;
                image := transform_scale (image o) sc;
                position := position o;
                persistent := persistent o |}]> (overlays st) /\
  dom (overlays st1) = dom (overlays st) /\
  image <$> overlays st2 !! k
    = Some (transform_scale (transform_scale (image o) sc) sc') /\
  fst (remove_overlay k st1) = true /\
  overlays (snd (remove_overlay k st1)) = delete k (overlays st).
Proof.
  intros E. unfold OverlayManager.rescale_overlay,
    OverlayManager.remove_overlay.
  rewrite E. simpl. rewrite !lookup_insert_eq. simpl.
  split; [done|]. split; [apply dom_insert_lookup_L; eauto|].
  split; [by rewrite lookup_insert_eq|].
  split; [done|]. apply delete_insert_eq.
Qed.

(** ** Cleaning up *)

Lemma del_fold (ks : list Z) (m : gmap Z (overlay surface)) :
  NoDup ks ->
  (forall k, k ∈ ks -> is_Some (m !! k)) ->
  exists r,
    foldl (fun acc k => acc ≫= del_key k) (Some m) ks = Some r /\
    forall j, r !! j = if decide (j ∈ ks) then None else m !! j.
Proof.
  revert m. induction ks as [|k ks IH]; intros m Hnd Hin.
  - exists m. split; [done|]. intros j. rewrite decide_False; [done|].
    apply not_elem_of_nil.
  - apply NoDup_cons in Hnd as [Hk Hnd].
    destruct (Hin k) as [o Ho]; [left|].
    destruct (IH (delete k m) Hnd) as (r & Hr & Hl).
    { intros k' Hk'. rewrite lookup_delete_ne by (intros ->; done).
      apply Hin. by right. }
    exists r. split.
    + simpl. unfold del_key at 2. rewrite Ho. exact Hr.
    + intros j. rewrite Hl. destruct (decide (j = k)) as [->|Hj].
      * rewrite decide_False by done. rewrite decide_True by left.
        apply lookup_delete_eq.
      * rewrite lookup_delete_ne by done.
        destruct (decide (j ∈ ks)) as [Hm|Hm].
        -- rewrite decide_True; [done|by right].
        -- rewrite decide_False; [done|].
           intros [?|?]%elem_of_cons; done.
Qed.

Lemma to_remove_spec (ov : gmap Z (overlay surface)) k :
  k ∈ to_remove ov <-> is_transient ov k = true.
Proof.
  unfold to_remove. rewrite list_elem_of_In, List.filter_In.
  rewrite <- list_elem_of_In. split; [by intros [_ H]|].
  intros H. split; [|done]. unfold is_transient in H.
  destruct (ov !! k) as [o|] eqn:E; [|discriminate].
  apply list_elem_of_fmap. exists (k, o). split; [done|].
  by apply elem_of_map_to_list.
Qed.

Lemma cleanup_lookup (st : state) :
  exists st',
    _cleanup st = Some st' /\
    messages st' = messages st /\
    renders st' = renders st /\
    forall k, overlays st' !! k
              = match overlays st !! k with
                | Some o => if persistent o then Some o else None
                | None => None
                end.
Proof.
  destruct (del_fold (to_remove (overlays st)) (overlays st)) as (r & Hr & Hl).
  - unfold to_remove. apply NoDup_ListNoDup, List.NoDup_filter.
    apply NoDup_ListNoDup, NoDup_fst_map_to_list.
  - intros k Hk%to_remove_spec. unfold is_transient in Hk.
    destruct (overlays st !! k); [eauto|discriminate].
  - exists (set_overlays r st). split.
    + unfold OverlayManager._cleanup. by rewrite Hr.
    + do 2 (split; [done|]). intros k. simpl. rewrite Hl.
      destruct (decide (k ∈ to_remove (overlays st))) as [Hk|Hk];
        rewrite to_remove_spec in Hk; unfold is_transient in Hk;
        destruct (overlays st !! k) as [o|]; try done;
        destruct (persistent o); done.
Qed.

(** X16. [_cleanup] never fails on a missing key; it deletes exactly the
    overlays that are not persistent, keeps the persistent ones as they
    are, and neither logs nor renders. *)
Theorem cleanup_keeps_exactly_the_persistent (st : state) :
  exists st',
    _cleanup st = Some st' /\
    overlays st' = filter (fun kv => persistent (snd kv) = true) (overlays st) /\
    messages st' = messages st /\
    renders st' = renders st.
Proof.
  destruct (cleanup_lookup st) as (st' & Hc & Hm & Hr & Hl).
  exists st'. repeat split; try done.
  apply map_eq. intros k. rewrite Hl, map_lookup_filter.
  destruct (overlays st !! k) as [o|]; simpl; [|done].
  destruct (persistent o) eqn:E.
  - rewrite option_guard_True; done.
  - rewrite option_guard_False; [done|]. simpl. congruence.
Qed.

(** X17. Cleaning up twice is cleaning up once. *)
Theorem cleanup_twice_is_cleanup_once (st : state) :
  _cleanup st ≫= _cleanup = _cleanup st.
Proof.
  destruct (cleanup_lookup st) as (st1 & Hc & Hm & Hr & Hl).
  destruct (cleanup_lookup st1) as (st2 & Hc2 & Hm2 & Hr2 & Hl2).
  rewrite Hc. simpl. rewrite Hc2. f_equal.
  destruct st1 as [ov1 ms1 rn1], st2 as [ov2 ms2 rn2]. simpl in *.
  subst. f_equal. apply map_eq. intros k. rewrite Hl2, Hl.
  destruct (overlays st !! k) as [o|]; [|done].
  destruct (persistent o) eqn:E; [by rewrite E|done].
Qed.

End Properties.
End OverlayManagerSpec.

(** * The added properties at work *)

Module MoreChecks.
Import ScriptManager ScriptManagerSpec ScriptManagerMore Demo Checks.
Import OverlayManager OverlayManagerSpec OverlayDemo.

(** X1 on "rooms/hello.py". *)
Lemma unit_name_is_basename_without_extension_witness :
  splitext_root (path_tail "rooms/hello.py") = "hello".
Proof.
  destruct (unit_name_is_basename_without_extension "rooms" "hello" "py")
    as [H _]; [reflexivity ..|exact H].
Defined.

(** X3 on the demo disk: loading "broken.py" leaves "hello.py" alone. *)
Lemma operation_touches_own_key_only_witness :
  modules (snd (call slashes "world" new_context ∅ disk "broken.py" "greet" []
                  hello_loaded)) !! "hello.py"
  = modules hello_loaded !! "hello.py".
Proof.
  destruct (operation_touches_own_key_only slashes "world" new_context ∅
              disk "broken.py" "greet" [] hello_loaded "hello.py")
    as (_ & _ & _ & H); [exact slashes_idem|discriminate|exact H].
Defined.

(** X5 on the demo disk: "broken.py" fails, then is repaired. *)
Lemma failing_script_is_run_again_witness :
  fst (_module slashes "world" new_context disk "broken.py" empty_manager)
    = Ret PNone /\
  modules (snd (_module slashes "world" new_context disk "broken.py"
                  empty_manager)) = ∅.
Proof.
  pose proof (failing_script_is_run_again slashes "world" new_context
                slashes_idem disk repaired_disk "broken.py" "world/broken.py"
                (Fault "SyntaxError") hello_attrs (VContext "broken.py")
                empty_manager) as H.
  cbv zeta in H.
  destruct H as (A & B & _);
    [vm_compute; reflexivity ..
    |split; [exact (f_equal fst A)|]].
  rewrite A. exact B.
Defined.

(** X6 on the demo disk. *)
Lemma loaded_unit_carries_its_context_witness :
  exists m st',
    _module slashes "world" new_context disk "hello.py" empty_manager
      = (Ret (Mod m), st') /\
    mod_attrs m !! "BXE" = Some (Data (VContext "hello.py")).
Proof.
  pose proof (loaded_unit_carries_its_context slashes "world" new_context
                slashes_idem disk "hello.py" "world/hello.py" hello_attrs
                (VContext "hello.py") empty_manager) as H.
  cbv zeta in H.
  destruct H as (m & st' & A & B & _);
    [vm_compute; reflexivity ..|exists m, st'; split; [exact A|exact B]].
Defined.

(** X7 on the demo disk: a call into a script that is not there. *)
Lemma call_without_unit_goes_to_None_witness :
  modules (snd (call slashes "world" new_context ∅ disk "nope.py" "greet" []
                  empty_manager)) = ∅.
Proof.
  pose proof (call_without_unit_goes_to_None slashes "world" new_context ∅
                slashes_idem disk "nope.py" "world/nope.py" "greet" []
                empty_manager) as H.
  cbv zeta in H.
  destruct H as (_ & H & _); [vm_compute; reflexivity ..|exact H].
Defined.

(** X8 on the demo disk: "broken.py" is there and fails. *)
Lemma getitem_tells_missing_from_failing_witness :
  __getitem__ slashes "world" new_context disk "broken.py" empty_manager
  = (Ret None,
     add_log (error_from_module "broken.py")
       (add_log (load_error_entry "broken.py" (Fault "SyntaxError"))
          (executed "broken.py" "world/broken.py" empty_manager))).
Proof.
  pose proof (getitem_tells_missing_from_failing slashes "world" new_context
                slashes_idem disk "broken.py" "world/broken.py"
                empty_manager) as H.
  cbv zeta in H.
  assert (E : disk !! "world/broken.py" = Some (Raise (Fault "SyntaxError")))
    by (vm_compute; reflexivity).
  rewrite E in H. apply H; vm_compute; reflexivity.
Defined.

(** X11 in an empty room: the lamp goes up and comes down. *)
Lemma insert_then_remove_restores_overlays_witness :
  overlays (snd (remove_overlay 7
                   (snd (insert_overlay pic_id images scaled "world"
                           (FromFile "lamp.png") (1, 2)%Z None false
                           no_overlays))))
  = ∅.
Proof.
  destruct (insert_then_remove_restores_overlays pic (Z * Z)%type pic_id
              images scaled "world"
              (FromFile "lamp.png") (1, 2)%Z None false 7 no_overlays)
    as (_ & H & _); [vm_compute; reflexivity ..|exact H].
Defined.

(** X15 in the lit room: the lamp is scaled. *)
Lemma rescale_replaces_the_image_under_the_same_id_witness :
  fst (remove_overlay 7 (snd (rescale_overlay scaled 7 (8, 8)%Z lit_room)))
  = true.
Proof.
  destruct (rescale_replaces_the_image_under_the_same_id pic (Z * Z)%type
              scaled 7 (8, 8)%Z
              (8, 8)%Z lamp_overlay lit_room)
    as (_ & _ & _ & H & _); [vm_compute; reflexivity|exact H].
Defined.

End MoreChecks.
